(** * dna-tools: the greedy overlap assembler of [src/tiny_assembler.py]

    A shallow embedding of class [DNAAssembler] and the properties of its
    methods [score], [find_best_offset], [find_best_match], [consensus],
    [assemble] and [assemble_helper], followed by the sequence tools of
    [src/tools.py] (module [Tools]) and their properties.

    Python values are modelled as follows: [int] is [Z]; a [str] is a list
    of characters; a tuple is a product; an exception is the [Raise] branch
    of [result]; a generator consumed by [sum] or [max] is the list of its
    items, produced in order, the first raised exception aborting it. *)

From Stdlib Require Import ZArith Ascii String List Bool Lia Permutation.
From Stdlib Require Import Sorted.
Import ListNotations.
Open Scope Z_scope.

(** ** Exceptions *)

Inductive exn : Type :=
| ValueError
| IndexError.

Inductive result (A : Type) : Type :=
| Ok (a : A)
| Raise (e : exn).
Arguments Ok {A} a.
Arguments Raise {A} e.

Definition bind {A B : Type} (c : result A) (k : A -> result B) : result B :=
  match c with
  | Ok a => k a
  | Raise e => Raise e
  end.

Notation "x <- c ;; k" := (bind c (fun x => k))
  (at level 61, c at next level, right associativity).

(** The items of a generator expression, in order of production. *)
Fixpoint mapM {A B : Type} (f : A -> result B) (l : list A) : result (list B) :=
  match l with
  | [] => Ok []
  | a :: l' => b <- f a ;; bs <- mapM f l' ;; Ok (b :: bs)
  end.

(** ** Python built-ins on sequences *)

Module Py.

(** [len(s)] *)
Definition len {A : Type} (s : list A) : Z := Z.of_nat (length s).

(** [range(lo, hi)] *)
Definition range (lo hi : Z) : list Z :=
  map (fun k => lo + Z.of_nat k) (seq 0 (Z.to_nat (hi - lo))).

(** [s[i]]: a negative index counts from the end, an index outside
    [-len(s) .. len(s)-1] raises [IndexError]. *)
Definition index {A : Type} (s : list A) (i : Z) : result A :=
  let j := if i <? 0 then i + len s else i in
  if (0 <=? j) && (j <? len s) then
    match nth_error s (Z.to_nat j) with
    | Some a => Ok a
    | None => Raise IndexError
    end
  else Raise IndexError.

(** The bound of a slice: a negative bound counts from the end, and the
    outcome is clipped to [0 .. len(s)]. *)
Definition clip (n i : Z) : Z :=
  let j := if i <? 0 then i + n else i in
  Z.max 0 (Z.min n j).

(** [s[lo:hi]], an omitted bound being [None]. *)
Definition slice {A : Type} (s : list A) (lo hi : option Z) : list A :=
  let n := len s in
  let a := match lo with Some i => clip n i | None => 0 end in
  let b := match hi with Some i => clip n i | None => n end in
  firstn (Z.to_nat (b - a)) (skipn (Z.to_nat a) s).

End Py.

(** ** Sequences and matches *)

Definition Sequence : Type := list ascii.

Definition dna (s : string) : Sequence := list_ascii_of_string s.

(** [a == b] on strings. *)
Fixpoint seq_eqb (a b : Sequence) : bool :=
  match a, b with
  | [], [] => true
  | x :: a', y :: b' => Ascii.eqb x y && seq_eqb a' b'
  | _, _ => false
  end.

(** The order of Python strings: lexicographic on the code points. *)
Fixpoint seq_compare (a b : Sequence) : comparison :=
  match a, b with
  | [], [] => Eq
  | [], _ :: _ => Lt
  | _ :: _, [] => Gt
  | x :: a', y :: b' =>
      match Ascii.compare x y with
      | Eq => seq_compare a' b'
      | c => c
      end
  end.

(** The tuple [(score, offset, sequence2, sequence1)]. *)
Definition Match : Type := (Z * Z * Sequence * Sequence)%type.

Definition m_score (m : Match) : Z := fst (fst (fst m)).
Definition m_offset (m : Match) : Z := snd (fst (fst m)).
Definition m_matched (m : Match) : Sequence := snd (fst m).
Definition m_base (m : Match) : Sequence := snd m.

(** The order of Python tuples: the first component that differs decides. *)
Definition lex_compare {A B : Type} (cmpA : A -> A -> comparison)
           (cmpB : B -> B -> comparison) (x y : A * B) : comparison :=
  match cmpA (fst x) (fst y) with
  | Eq => cmpB (snd x) (snd y)
  | c => c
  end.

Definition tuple_compare : Match -> Match -> comparison :=
  lex_compare (lex_compare (lex_compare Z.compare Z.compare) seq_compare)
              seq_compare.

(** What the built-in comparisons of [int], [str] and tuples provide. *)
Class TotalOrder {A : Type} (cmp : A -> A -> comparison) : Prop := {
  cmp_eq : forall x y, cmp x y = Eq <-> x = y;
  cmp_opp : forall x y, cmp y x = CompOpp (cmp x y);
  cmp_lt_trans : forall x y z, cmp x y = Lt -> cmp y z = Lt -> cmp x z = Lt
}.
Arguments cmp_eq {A} cmp {_} x y.
Arguments cmp_opp {A} cmp {_} x y.
Arguments cmp_lt_trans {A} cmp {_} x y z.

(** [x <= y] in the order of [cmp]. *)
Definition cmp_le {A : Type} (cmp : A -> A -> comparison) (x y : A) : Prop :=
  cmp x y <> Gt.

(** [max(items)]: the first item that no later item exceeds; [ValueError]
    on an empty iterable. *)
Section Max.

Context {A : Type} (cmp : A -> A -> comparison).

Definition gtb (x y : A) : bool :=
  match cmp x y with
  | Gt => true
  | _ => false
  end.

Fixpoint max_loop (best : A) (items : list A) : A :=
  match items with
  | [] => best
  | x :: xs => max_loop (if gtb x best then x else best) xs
  end.

Definition py_max (items : list A) : result A :=
  match items with
  | [] => Raise ValueError
  | x :: xs => Ok (max_loop x xs)
  end.

End Max.

(** ** The assembler *)

(** The positions that [score] visits. *)
Definition score_range (sequence1 sequence2 : Sequence) (offset : Z) : list Z :=
  Py.range (Z.max (0 - offset) 0)
           (Z.min (Z.min (Py.len sequence2 - offset) (Py.len sequence2))
                  (Py.len sequence1 - offset)).

(** The test [sequence2[position] == sequence1[position + offset]]. *)
Definition score_test (sequence1 sequence2 : Sequence) (offset position : Z)
  : result bool :=
  a <- Py.index sequence2 position ;;
  b <- Py.index sequence1 (position + offset) ;;
  Ok (Ascii.eqb a b).

(** [sum(1 for position in ... if ...)] *)
Fixpoint score_sum (sequence1 sequence2 : Sequence) (offset : Z)
         (positions : list Z) (total : Z) : result Z :=
  match positions with
  | [] => Ok total
  | position :: rest =>
      hit <- score_test sequence1 sequence2 offset position ;;
      score_sum sequence1 sequence2 offset rest
                (if hit : bool then total + 1 else total)
  end.

Definition score (sequence1 sequence2 : Sequence) (offset : Z) : result Z :=
  score_sum sequence1 sequence2 offset
            (score_range sequence1 sequence2 offset) 0.

Definition find_best_offset (sequence1 sequence2 : Sequence) : result Match :=
  items <- mapM (fun offset =>
                   s <- score sequence1 sequence2 offset ;;
                   Ok (s, offset, sequence2, sequence1))
                (Py.range (1 - Py.len sequence2) (Py.len sequence1)) ;;
  py_max tuple_compare items.

Definition find_best_match (sequence : Sequence) (others : list Sequence)
  : result Match :=
  items <- mapM (fun sequence2 => find_best_offset sequence sequence2)
                (filter (fun sequence2 => negb (seq_eqb sequence2 sequence))
                        others) ;;
  py_max tuple_compare items.

Definition consensus (score offset : Z) (sequence1 sequence2 : Sequence)
  : Sequence :=
  Py.slice sequence2 (Some 0) (Some (Z.max 0 offset))
  ++ sequence1
  ++ Py.slice sequence2 (Some (Py.len sequence1 + offset)) None.

(** [self.consensus( *best_match)] *)
Definition consensus_of (best_match : Match) : Sequence :=
  consensus (m_score best_match) (m_offset best_match)
            (m_matched best_match) (m_base best_match).

(** [[y for y in others if y != best_match[2]]] *)
Definition drop_matched (best_match : Match) (others : list Sequence)
  : list Sequence :=
  filter (fun y => negb (seq_eqb y (m_matched best_match))) others.

(** [assemble] recurses on a list that is not a part of its argument; the
    embedding counts the nested calls down from [fuel], [None] standing for
    a count that ran out. [assemble_fuel_enough] below shows that
    [length others] calls are always enough. Python makes one frame for
    each nested call and raises [RecursionError] when its recursion limit
    is passed: with [fuel] the number of nested calls that the limit leaves
    room for, [None] is that exception ([assemble_within] below). *)
Fixpoint assemble_fuel (fuel : nat) (sequence : Sequence)
         (others : list Sequence) : option (result Sequence) :=
  if Py.len others =? 1 then
    Some (best_match <- find_best_match sequence others ;;
          Ok (consensus_of best_match))
  else
    match find_best_match sequence others with
    | Raise e => Some (Raise e)
    | Ok best_match =>
        match fuel with
        | O => None
        | S fuel' =>
            assemble_fuel fuel' (consensus_of best_match)
                          (drop_matched best_match others)
        end
    end.

Definition assemble (sequence : Sequence) (others : list Sequence)
  : option (result Sequence) :=
  assemble_fuel (length others) sequence others.

Definition assemble_helper (reads : list Sequence) : option (result Sequence) :=
  match Py.index reads 0 with
  | Raise e => Some (Raise e)
  | Ok first => assemble first (Py.slice reads (Some 1) None)
  end.

(** The successive arguments [(sequence, others)] of the calls of
    [assemble], the outermost first. *)
Fixpoint assemble_calls (fuel : nat) (sequence : Sequence)
         (others : list Sequence) : list (Sequence * list Sequence) :=
  (sequence, others) ::
  if Py.len others =? 1 then []
  else
    match find_best_match sequence others with
    | Raise _ => []
    | Ok best_match =>
        match fuel with
        | O => []
        | S fuel' =>
            assemble_calls fuel' (consensus_of best_match)
                           (drop_matched best_match others)
        end
    end.

(** The read that a call of [assemble] merges into its sequence. *)
Definition merged_read (call : Sequence * list Sequence) : list Sequence :=
  match find_best_match (fst call) (snd call) with
  | Ok best_match => [m_matched best_match]
  | Raise _ => []
  end.


(** ** Reference notions for the properties *)

(** Whether the characters at [position] of [sequence2] and at
    [position + offset] of [sequence1] both exist and are equal. *)
Definition hit (sequence1 sequence2 : Sequence) (offset position : Z) : bool :=
  match nth_error sequence2 (Z.to_nat position),
        nth_error sequence1 (Z.to_nat (position + offset)) with
  | Some a, Some b => Ascii.eqb a b
  | _, _ => false
  end.

Definition count_hits (sequence1 sequence2 : Sequence) (offset : Z)
           (positions : list Z) : Z :=
  Py.len (filter (hit sequence1 sequence2 offset) positions).

(** The tuple that [find_best_offset] builds at one offset. *)
Definition offset_item (s1 s2 : Sequence) (offset : Z) : Match :=
  (count_hits s1 s2 offset (score_range s1 s2 offset), offset, s2, s1).

(** The specification's overlap count: the number of positions [p] such
    that [p] is an index of [sequence2], [p + offset] is an index of
    [sequence1], and the two characters are equal. *)
Definition overlap_hit (sequence1 sequence2 : Sequence) (offset p : Z) : bool :=
  (0 <=? p) && (p <? Py.len sequence2)
  && (0 <=? p + offset) && (p + offset <? Py.len sequence1)
  && hit sequence1 sequence2 offset p.

Definition overlap_count (sequence1 sequence2 : Sequence) (offset : Z) : Z :=
  Py.len (filter (overlap_hit sequence1 sequence2 offset)
                 (Py.range 0 (Py.len sequence2))).

(** The specification's removal: every element equal by value to [x]
    leaves the list, the others keep their order. *)
Definition without_value (x : Sequence) (l : list Sequence) : list Sequence :=
  remove (fun a b : Sequence => list_eq_dec ascii_dec a b) x l.

(** A call of [assemble] whose sequence is none of the others. *)
Definition apart (call : Sequence * list Sequence) : Prop :=
  ~ In (fst call) (snd call).

(** The lengths of the reads of a pool, added up. *)
Definition total_length (reads : list Sequence) : Z :=
  fold_right Z.add 0 (map (fun read => Py.len read) reads).

(** ** Runs under a recursion limit, and the reduction they follow *)

(** What a run gives when the interpreter bounds the nesting of calls. *)
Inductive run : Type :=
| Returned (sequence : Sequence)
| Raised (e : exn)
| RecursionError.

(** [assemble] when the recursion limit leaves room for [limit] calls of
    [assemble] nested inside the first one. *)
Definition assemble_within (limit : nat) (sequence : Sequence)
           (others : list Sequence) : run :=
  match assemble_fuel limit sequence others with
  | Some (Ok consensus) => Returned consensus
  | Some (Raise e) => Raised e
  | None => RecursionError
  end.

Definition assemble_helper_within (limit : nat) (reads : list Sequence) : run :=
  match Py.index reads 0 with
  | Raise e => Raised e
  | Ok first => assemble_within limit first (Py.slice reads (Some 1) None)
  end.

(** The specification's reduction, with the states [(current, remaining)]
    it goes through: with exactly one remaining candidate the best match
    is merged and the run is done; a failing selection ends the run;
    otherwise the best match is merged and the run goes on with the
    remaining candidates from which every element equal by value to the
    matched sequence is removed. *)
Inductive assembles :
  Sequence -> list Sequence -> list (Sequence * list Sequence) ->
  result Sequence -> Prop :=
| assembles_done (current : Sequence) (remaining : list Sequence) (m : Match) :
    length remaining = 1%nat ->
    find_best_match current remaining = Ok m ->
    assembles current remaining [(current, remaining)] (Ok (consensus_of m))
| assembles_fail (current : Sequence) (remaining : list Sequence) (e : exn) :
    find_best_match current remaining = Raise e ->
    assembles current remaining [(current, remaining)] (Raise e)
| assembles_step (current : Sequence) (remaining : list Sequence) (m : Match)
                 (states : list (Sequence * list Sequence))
                 (r : result Sequence) :
    length remaining <> 1%nat ->
    find_best_match current remaining = Ok m ->
    assembles (consensus_of m) (without_value (m_matched m) remaining) states r ->
    assembles current remaining ((current, remaining) :: states) r.

(** ** The sequence tools of [src/tools.py] *)

Module Tools.

(** The exceptions of the tools: a character missing from a dictionary, a
    division by zero, [range] called with step 0, an index out of range, a
    local variable read before it is assigned, and a name missing from a
    dictionary. *)
Inductive failure : Type :=
| KeyError (key : ascii)
| ZeroDivisionError
| StepError
| IndexError
| UnboundLocalError
| NameKeyError (name : Sequence).

Inductive outcome (A : Type) : Type :=
| Value (a : A)
| Raises (e : failure).
Arguments Value {A} a.
Arguments Raises {A} e.

(** [d[key]] and [key in d] for a dictionary written as the list of its
    items. *)
Fixpoint dict_get {V : Type} (d : list (ascii * V)) (key : ascii) : option V :=
  match d with
  | [] => None
  | (k, v) :: d' => if Ascii.eqb k key then Some v else dict_get d' key
  end.

(** [seq[::-1]] *)
Definition reverse_string (seq : Sequence) : Sequence := rev seq.

Definition complement_bases : list (ascii * ascii) :=
  [("A", "T"); ("a", "t"); ("T", "A"); ("t", "a"); ("C", "G"); ("c", "g");
   ("G", "C"); ("g", "c"); ("N", "N"); ("n", "n"); ("M", "K"); ("m", "k");
   ("K", "M"); ("k", "m"); ("R", "Y"); ("r", "y"); ("Y", "R"); ("y", "r");
   ("W", "W"); ("w", "w"); ("S", "S"); ("s", "s"); ("V", "B"); ("v", "b");
   ("B", "V"); ("b", "v"); ("H", "D"); ("h", "d"); ("D", "H"); ("d", "h")]%char.

(** [[complement_bases[base] for base in letters]], joined. *)
Fixpoint complement (seq : Sequence) : outcome Sequence :=
  match seq with
  | [] => Value []
  | base :: letters =>
      match dict_get complement_bases base with
      | None => Raises (KeyError base)
      | Some c =>
          match complement letters with
          | Value cs => Value (c :: cs)
          | Raises e => Raises e
          end
      end
  end.

Definition reverse_complement (seq : Sequence) : outcome Sequence :=
  complement (reverse_string seq).

(** [s.startswith(sub)] *)
Fixpoint starts_with (sub s : Sequence) : bool :=
  match sub, s with
  | [], _ => true
  | _ :: _, [] => false
  | a :: sub', b :: s' => Ascii.eqb a b && starts_with sub' s'
  end.

(** [s.count(sub)]: the occurrences of [sub] in [s] that do not overlap,
    taken from the left; [skip] characters of an occurrence just counted
    are passed over. *)
Fixpoint count_from (sub s : Sequence) (skip : nat) : Z :=
  match s with
  | [] => 0
  | _ :: s' =>
      match skip with
      | S k => count_from sub s' k
      | O =>
          if starts_with sub s then 1 + count_from sub s' (length sub - 1)
          else count_from sub s' 0
      end
  end.

Definition str_count (s sub : Sequence) : Z :=
  match sub with
  | [] => Py.len s + 1
  | _ :: _ => count_from sub s 0
  end.

Definition count_base (dna base : Sequence) : Z := str_count dna base.

(** [{letter: count_base(dna, letter) for letter in set(dna)}]; the items
    are listed in the order in which the letters last occur in [dna],
    Python leaving the order of a set open. *)
Definition count_all_letters (dna : Sequence) : list (ascii * Z) :=
  map (fun letter => (letter, count_base dna [letter])) (nodup ascii_dec dna).

(** [c.isspace()] for the code points below 256. *)
Definition isspace (c : ascii) : bool :=
  let n := N_of_ascii c in
  ((9 <=? n) && (n <=? 13) || (28 <=? n) && (n <=? 32)
   || (n =? 133) || (n =? 160))%N.

(** [seq.split()]: the maximal runs of characters that are not
    whitespace; [word] is the run being read. *)
Fixpoint split_loop (seq word : Sequence) : list Sequence :=
  match seq with
  | [] => match word with [] => [] | _ :: _ => [word] end
  | c :: seq' =>
      if isspace c then
        match word with
        | [] => split_loop seq' []
        | _ :: _ => word :: split_loop seq' []
        end
      else split_loop seq' (word ++ [c])
  end.

Definition str_split (seq : Sequence) : list Sequence := split_loop seq [].

(** [sep.join(items)] *)
Fixpoint join (sep : Sequence) (items : list Sequence) : Sequence :=
  match items with
  | [] => []
  | [x] => x
  | x :: rest => x ++ sep ++ join sep rest
  end.

Definition rmv_new_lines_spaces (seq : Sequence) : Sequence :=
  join [] (str_split seq).

(** The items of [range(lo, hi, step)] for a step other than 0. *)
Definition range_items (lo hi step : Z) : list Z :=
  let n := if 0 <? step then (hi - lo + step - 1) / step
           else (lo - hi - step - 1) / (- step) in
  map (fun k => lo + Z.of_nat k * step) (seq 0 (Z.to_nat n)).

(** [range(lo, hi, step)] *)
Definition range_step (lo hi step : Z) : outcome (list Z) :=
  if step =? 0 then Raises StepError else Value (range_items lo hi step).

Section Gc.

(** The floating-point numbers and the three operations on them that [gc]
    uses are left open. *)
Context {float : Type} (float_of_int : Z -> float)
        (float_mul float_div : float -> float -> float).

Definition gc (dna : Sequence) : outcome float :=
  let nbases := str_count dna ["N"%char] + str_count dna ["n"%char] in
  let bases := float_of_int (str_count dna ["G"%char]
                             + str_count dna ["g"%char]
                             + str_count dna ["C"%char]
                             + str_count dna ["c"%char]) in
  let scaled := float_mul bases (float_of_int 100) in
  if Py.len dna - nbases =? 0 then Raises ZeroDivisionError
  else Value (float_div scaled (float_of_int (Py.len dna - nbases))).

End Gc.

(** [c.lower()] for the code points below 256. *)
Definition lower (c : ascii) : ascii :=
  let n := N_of_ascii c in
  if ((65 <=? n) && (n <=? 90)
      || (192 <=? n) && (n <=? 222) && negb (n =? 215))%N
  then ascii_of_N (n + 32) else c.

Definition stop_codons : list Sequence :=
  [dna "tga"; dna "tag"; dna "taa"].

(** [dna[i: i + 3].lower()] *)
Definition codon_at (dna : Sequence) (i : Z) : Sequence :=
  map lower (Py.slice dna (Some i) (Some (i + 3))).

(** [codon in stop_codons] *)
Definition is_stop (codon : Sequence) : bool :=
  existsb (fun stop => seq_eqb codon stop) stop_codons.

(** The loop of [has_stop_codon], which [break]s at the first stop
    codon. *)
Fixpoint has_stop_loop (dna : Sequence) (positions : list Z)
         (stop_codon_found : bool) : bool :=
  match positions with
  | [] => stop_codon_found
  | i :: rest =>
      if is_stop (codon_at dna i) then true
      else has_stop_loop dna rest stop_codon_found
  end.

Definition has_stop_codon (dna : Sequence) (frame : Z) : bool :=
  has_stop_loop dna (range_items frame (Py.len dna) 3) false.

(** The loop of [find_stop_codons], which appends every hit. *)
Fixpoint find_stop_loop (dna : Sequence) (positions : list Z)
         (stop_codon_indexes : list Z) : list Z :=
  match positions with
  | [] => stop_codon_indexes
  | i :: rest =>
      find_stop_loop dna rest
                     (if is_stop (codon_at dna i)
                      then stop_codon_indexes ++ [i]
                      else stop_codon_indexes)
  end.

Definition find_stop_codons (dna : Sequence) (frame : Z) : list Z :=
  find_stop_loop dna (range_items frame (Py.len dna) 3) [].

(** The dictionary of the six reading frames, as the list of its items. *)
Definition get_all_frames (dna : Sequence) : outcome (list (string * Sequence)) :=
  match reverse_complement dna with
  | Raises e => Raises e
  | Value rev_comp =>
      let fframes := map (fun i => Py.slice dna (Some i) None)
                         (range_items 0 3 1) in
      let rframes := map (fun i => Py.slice rev_comp (Some i) None)
                         (range_items 0 3 1) in
      let frames := fframes ++ rframes in
      let frame_names := ["f1"; "f2"; "f3"; "r1"; "r2"; "r3"]%string in
      Value (combine frame_names frames)
  end.

(** [[seq[i: i + n] for i in range(0, len(seq), n)]] *)
Definition chunks (seq : Sequence) (n : Z) : outcome (list Sequence) :=
  match range_step 0 (Py.len seq) n with
  | Raises e => Raises e
  | Value starts =>
      Value (map (fun i => Py.slice seq (Some i) (Some (i + n))) starts)
  end.

Definition split_by_n_letters (seq : Sequence) (word_size : Z)
  : outcome Sequence :=
  match chunks seq word_size with
  | Raises e => Raises e
  | Value words => Value (join (dna " ") words)
  end.

Definition split_to_lines_of_length_n (seq : Sequence) (n : Z)
  : outcome (list Sequence) :=
  chunks seq n.

(** *** FASTA files *)

(** [s.endswith(suffix)] *)
Definition ends_with (s suffix : Sequence) : bool :=
  starts_with (rev suffix) (rev s).

(** [s.rstrip()] *)
Fixpoint lstrip (s : Sequence) : Sequence :=
  match s with
  | [] => []
  | c :: s' => if isspace c then lstrip s' else s
  end.

Definition rstrip (s : Sequence) : Sequence := rev (lstrip (rev s)).

(** The text files, by name. Texts are taken as the characters that a
    program reads and writes; opening a file to write never fails, and a
    name without a file is one that [open] refuses with [IOError]. Names
    that [open] refuses in another way, such as a name holding a NUL
    character, and files that do not decode as text are outside these
    files. *)
Definition files : Type := Sequence -> option Sequence.

Definition write_file (fs : files) (name text : Sequence) : files :=
  fun other => if seq_eqb other name then Some text else fs other.

(** The string ["\n"]. *)
Definition newline : Sequence := ["010"%char].

(** The lines that [for line in f] yields: a line ends after ["\n"],
    ["\r"] or ["\r\n"], each of them read as ["\n"]; [after_cr] tells that
    the character before was ["\r"]. *)
Fixpoint read_lines (text line : Sequence) (after_cr : bool) : list Sequence :=
  match text with
  | [] => match line with [] => [] | _ :: _ => [line] end
  | c :: text' =>
      if Ascii.eqb c "010" then
        if after_cr then read_lines text' line false
        else (line ++ newline) :: read_lines text' [] false
      else if Ascii.eqb c "013" then
        (line ++ newline) :: read_lines text' [] true
      else read_lines text' (line ++ [c]) false
  end.

(** A dictionary from names to sequences, as the list of its items in the
    order in which the names came in. *)
Definition names : Type := list (Sequence * Sequence).

Fixpoint names_get (d : names) (name : Sequence) : option Sequence :=
  match d with
  | [] => None
  | (k, v) :: d' => if seq_eqb k name then Some v else names_get d' name
  end.

Fixpoint names_set (d : names) (name value : Sequence) : names :=
  match d with
  | [] => [(name, value)]
  | (k, v) :: d' =>
      if seq_eqb k name then (k, value) :: d'
      else (k, v) :: names_set d' name value
  end.

(** The loop of [fasta_parser]; [name] is [None] until a header line
    assigns it. *)
Fixpoint parse_lines (lines : list Sequence) (seqs : names)
         (name : option Sequence) : outcome names :=
  match lines with
  | [] => Value seqs
  | line :: rest =>
      let line := rstrip line in
      if starts_with (dna ">") line then
        match str_split line with
        | [] => Raises IndexError
        | word :: _ =>
            let name := Py.slice word (Some 1) None in
            parse_lines rest (names_set seqs name []) (Some name)
        end
      else
        let seq := rmv_new_lines_spaces line in
        match name with
        | None => Raises UnboundLocalError
        | Some key =>
            match names_get seqs key with
            | None => Raises (NameKeyError key)
            | Some old => parse_lines rest (names_set seqs key (old ++ seq)) name
            end
        end
  end.

(** [fasta_parser] gives what it prints and what it returns or raises;
    [None] is returned after an [IOError]. *)
Definition fasta_parser (fs : files) (file : Sequence)
  : list Sequence * outcome (option names) :=
  let file := if ends_with file (dna ".fasta") then file
              else file ++ dna ".fasta" in
  match fs file with
  | None => ([dna "File not found!!"], Value None)
  | Some text =>
      ([], match parse_lines (read_lines text [] false) [] None with
           | Value seqs => Value (Some seqs)
           | Raises e => Raises e
           end)
  end.

(** What [save_fasta] writes for one sequence after its header: the
    lines of 50 characters, each in words of 10. *)
Fixpoint final_seq_loop (lines : list Sequence) (final_seq : Sequence)
  : outcome Sequence :=
  match lines with
  | [] => Value final_seq
  | line :: rest =>
      match split_by_n_letters line 10 with
      | Raises e => Raises e
      | Value words => final_seq_loop rest (final_seq ++ words ++ newline)
      end
  end.

(** The loop of [save_fasta] over [zip(headers, seqs)]; [written] is the
    text written so far. *)
Fixpoint save_loop (items : list (Sequence * Sequence)) (written : Sequence)
  : outcome Sequence :=
  match items with
  | [] => Value written
  | (header, seq) :: rest =>
      match split_to_lines_of_length_n seq 50 with
      | Raises e => Raises e
      | Value lines =>
          match final_seq_loop lines [] with
          | Raises e => Raises e
          | Value final_seq =>
              save_loop rest
                        (written ++ (header ++ newline) ++ final_seq ++ newline)
          end
      end
  end.

Definition save_fasta (fs : files) (headers seqs : list Sequence)
           (file_name : Sequence) : outcome files :=
  let file_name := if ends_with file_name (dna ".fasta")
                      || ends_with file_name (dna "faa")
                   then file_name else file_name ++ dna ".fasta" in
  match save_loop (combine headers seqs) [] with
  | Raises e => Raises e
  | Value text => Value (write_file fs file_name text)
  end.

(** *** Reference notions for the properties of FASTA files *)

(** The words of a line and the lines of a sequence as [save_fasta] cuts
    them. *)
Definition words_of (line : Sequence) : Sequence :=
  match split_by_n_letters line 10 with
  | Value words => words
  | Raises _ => []
  end.

Definition lines_of (seq : Sequence) : list Sequence :=
  match split_to_lines_of_length_n seq 50 with
  | Value lines => lines
  | Raises _ => []
  end.

(** The lines, without their ends, that [save_fasta] writes for one
    header and its sequence: the header, the lines of the sequence, and an
    empty line. *)
Definition record_lines (header seq : Sequence) : list Sequence :=
  header :: map words_of (lines_of seq) ++ [[]].

(** The header of a name. *)
Definition header_of (name : Sequence) : Sequence := ">"%char :: name.

(** A sequence without whitespace. *)
Definition clean (s : Sequence) : Prop := Forall (fun c => isspace c = false) s.

End Tools.

(** * Properties *)

(** ** Total orders, and [max] over them *)

#[export] Instance Z_total : TotalOrder Z.compare.
Proof.
  split.
  - intros x y. apply Z.compare_eq_iff.
  - intros x y. apply Z.compare_antisym.
  - intros x y z. rewrite !Z.compare_lt_iff. lia.
Qed.

#[export] Instance ascii_total : TotalOrder Ascii.compare.
Proof.
  split.
  - intros x y. split.
    + apply Ascii.compare_eq_iff.
    + intros ->. unfold Ascii.compare. apply N.compare_refl.
  - intros x y. apply Ascii.compare_antisym.
  - intros x y z. unfold Ascii.compare. rewrite !N.compare_lt_iff. lia.
Qed.

Section OrderFacts.

Context {A : Type} (cmp : A -> A -> comparison) `{!TotalOrder cmp}.

Lemma cmp_refl (x : A) : cmp x x = Eq.
Proof. now apply (cmp_eq cmp). Qed.

Lemma cmp_gt_lt (x y : A) : cmp x y = Gt <-> cmp y x = Lt.
Proof. rewrite (cmp_opp cmp y x). destruct (cmp y x); simpl; split; congruence. Qed.

Lemma cmp_gt_trans (x y z : A) : cmp x y = Gt -> cmp y z = Gt -> cmp x z = Gt.
Proof.
  rewrite !cmp_gt_lt. intros Hxy Hyz. exact (cmp_lt_trans cmp _ _ _ Hyz Hxy).
Qed.

Lemma cmp_le_refl (x : A) : cmp_le cmp x x.
Proof. unfold cmp_le. rewrite cmp_refl. discriminate. Qed.

Lemma cmp_le_lt_trans (x y z : A) : cmp_le cmp x y -> cmp y z = Lt -> cmp x z = Lt.
Proof.
  unfold cmp_le. intros Hxy Hyz. destruct (cmp x y) eqn:E.
  - apply (cmp_eq cmp) in E. now subst.
  - exact (cmp_lt_trans cmp _ _ _ E Hyz).
  - congruence.
Qed.

Lemma cmp_le_antisym (x y : A) : cmp_le cmp x y -> cmp_le cmp y x -> x = y.
Proof.
  unfold cmp_le. intros Hxy Hyx. destruct (cmp x y) eqn:E.
  - now apply (cmp_eq cmp).
  - apply cmp_gt_lt in E. congruence.
  - congruence.
Qed.

Lemma max_loop_in (items : list A) (best : A) :
  In (max_loop cmp best items) (best :: items).
Proof.
  revert best. induction items as [|x xs IH]; intros best; simpl.
  - now left.
  - destruct (IH (if gtb cmp x best then x else best)) as [H|H].
    + destruct (gtb cmp x best); rewrite <- H; auto.
    + auto.
Qed.

Lemma max_loop_ge_best (items : list A) (best : A) :
  cmp_le cmp best (max_loop cmp best items).
Proof.
  revert best. induction items as [|x xs IH]; intros best; simpl.
  - apply cmp_le_refl.
  - unfold gtb. destruct (cmp x best) eqn:E; try apply IH.
    specialize (IH x). unfold cmp_le in *. intros Hgt. apply IH.
    apply cmp_gt_lt in Hgt. apply cmp_gt_lt in E. apply cmp_gt_lt.
    exact (cmp_lt_trans cmp _ _ _ Hgt E).
Qed.

Lemma max_loop_upper (items : list A) (best x : A) :
  In x (best :: items) -> cmp_le cmp x (max_loop cmp best items).
Proof.
  revert best. induction items as [|y ys IH]; intros best Hin.
  - destruct Hin as [<-|[]]. apply cmp_le_refl.
  - simpl. destruct Hin as [<-|[<-|Hin]].
    + pose proof (max_loop_ge_best ys (if gtb cmp y best then y else best)) as H.
      unfold gtb in *. destruct (cmp y best) eqn:E; try exact H.
      unfold cmp_le in *. intros Hgt. apply H. apply cmp_gt_lt.
      apply cmp_gt_lt in Hgt. apply cmp_gt_lt in E.
      exact (cmp_lt_trans cmp _ _ _ Hgt E).
    + pose proof (max_loop_ge_best ys (if gtb cmp y best then y else best)) as H.
      unfold gtb in *. destruct (cmp y best) eqn:E; try exact H.
      * apply (cmp_eq cmp) in E. now subst.
      * unfold cmp_le in *. intros Hgt. apply H. apply cmp_gt_lt.
        apply cmp_gt_lt in Hgt. exact (cmp_lt_trans cmp _ _ _ Hgt E).
    + apply IH. now right.
Qed.

(** [max] of a non-empty list is one of its items and no item exceeds it. *)
Lemma py_max_spec (items : list A) :
  items <> [] ->
  exists m, py_max cmp items = Ok m /\ In m items /\
            forall x, In x items -> cmp_le cmp x m.
Proof.
  destruct items as [|x xs]; [congruence|]. intros _.
  exists (max_loop cmp x xs). split; [reflexivity|]. split.
  - apply max_loop_in.
  - intros y Hy. now apply max_loop_upper.
Qed.

Lemma py_max_ok_inv (items : list A) (m : A) :
  py_max cmp items = Ok m ->
  In m items /\ forall x, In x items -> cmp_le cmp x m.
Proof.
  destruct items as [|x xs]; [discriminate|]. intros H.
  destruct (py_max_spec (x :: xs)) as (m' & Hm' & Hin & Hup); [discriminate|].
  rewrite H in Hm'. injection Hm' as <-. auto.
Qed.

End OrderFacts.

#[export] Instance seq_total : TotalOrder seq_compare.
Proof.
  split.
  - induction x as [|a x IH]; destruct y as [|b y]; simpl;
      try (split; (reflexivity || discriminate)).
    destruct (Ascii.compare a b) eqn:E.
    + apply (cmp_eq Ascii.compare) in E. subst b. rewrite IH.
      split; [now intros -> | now intros [= ->]].
    + split; [discriminate|]. intros [= -> _].
      rewrite (cmp_refl Ascii.compare) in E. discriminate.
    + split; [discriminate|]. intros [= -> _].
      rewrite (cmp_refl Ascii.compare) in E. discriminate.
  - induction x as [|a x IH]; destruct y as [|b y]; simpl; try reflexivity.
    rewrite (cmp_opp Ascii.compare a b).
    destruct (Ascii.compare a b); simpl; auto.
  - induction x as [|a x IH]; destruct y as [|b y]; destruct z as [|c z];
      simpl; try congruence.
    destruct (Ascii.compare a b) eqn:Eab; try discriminate.
    + apply (cmp_eq Ascii.compare) in Eab. subst b.
      destruct (Ascii.compare a c); try congruence. apply IH.
    + intros _. destruct (Ascii.compare b c) eqn:Ebc; try discriminate.
      * apply (cmp_eq Ascii.compare) in Ebc. subst c. now rewrite Eab.
      * now rewrite (cmp_lt_trans Ascii.compare _ _ _ Eab Ebc).
Qed.

#[export] Instance lex_total {A B : Type} (cmpA : A -> A -> comparison)
  (cmpB : B -> B -> comparison) `{!TotalOrder cmpA} `{!TotalOrder cmpB} :
  TotalOrder (lex_compare cmpA cmpB).
Proof.
  split.
  - intros [a b] [a' b']. unfold lex_compare. simpl.
    destruct (cmpA a a') eqn:E.
    + apply (cmp_eq cmpA) in E. subst a'. rewrite (cmp_eq cmpB).
      split; [now intros -> | now intros [= ->]].
    + split; [discriminate|]. intros [= -> _].
      rewrite (cmp_refl cmpA) in E. discriminate.
    + split; [discriminate|]. intros [= -> _].
      rewrite (cmp_refl cmpA) in E. discriminate.
  - intros [a b] [a' b']. unfold lex_compare. simpl.
    rewrite (cmp_opp cmpA a a').
    destruct (cmpA a a'); simpl; auto. apply (cmp_opp cmpB).
  - intros [a b] [a' b'] [a'' b'']. unfold lex_compare. simpl.
    destruct (cmpA a a') eqn:E1; try discriminate.
    + apply (cmp_eq cmpA) in E1. subst a'.
      destruct (cmpA a a''); try congruence. apply (cmp_lt_trans cmpB).
    + intros _. destruct (cmpA a' a'') eqn:E2; try discriminate.
      * apply (cmp_eq cmpA) in E2. subst a''. now rewrite E1.
      * now rewrite (cmp_lt_trans cmpA _ _ _ E1 E2).
Qed.

#[export] Instance tuple_total : TotalOrder tuple_compare.
Proof. unfold tuple_compare. exact _. Qed.

Lemma seq_eqb_eq (a b : Sequence) : seq_eqb a b = true <-> a = b.
Proof.
  revert b. induction a as [|x a IH]; destruct b as [|y b]; simpl;
    try (split; (reflexivity || discriminate)).
  rewrite andb_true_iff, Ascii.eqb_eq, IH.
  split; [now intros [-> ->] | now intros [= -> ->]].
Qed.

Lemma seq_eqb_neq (a b : Sequence) : seq_eqb a b = false <-> a <> b.
Proof.
  rewrite <- seq_eqb_eq. destruct (seq_eqb a b); split; congruence.
Qed.

(** ** The built-ins *)

Lemma len_nonneg {A : Type} (s : list A) : 0 <= Py.len s.
Proof. unfold Py.len. lia. Qed.

Lemma len_app {A : Type} (s t : list A) : Py.len (s ++ t) = Py.len s + Py.len t.
Proof. unfold Py.len. rewrite length_app. lia. Qed.

Lemma len_nil_iff {A : Type} (s : list A) : Py.len s = 0 <-> s = [].
Proof. unfold Py.len. destruct s; simpl; split; (congruence || lia). Qed.

Lemma len_pos {A : Type} (s : list A) : s <> [] -> 1 <= Py.len s.
Proof.
  intros H. pose proof (len_nonneg s). pose proof (len_nil_iff s).
  destruct (Z.eq_dec (Py.len s) 0); [tauto|lia].
Qed.

Lemma range_length (lo hi : Z) :
  Py.len (Py.range lo hi) = Z.max 0 (hi - lo).
Proof. unfold Py.len, Py.range. rewrite length_map, length_seq. lia. Qed.

Lemma range_in (lo hi p : Z) : In p (Py.range lo hi) <-> lo <= p < hi.
Proof.
  unfold Py.range. rewrite in_map_iff. split.
  - intros (k & <- & Hk). apply in_seq in Hk. lia.
  - intros H. exists (Z.to_nat (p - lo)). split; [lia|].
    apply in_seq. lia.
Qed.

Lemma range_empty (lo hi : Z) : hi <= lo -> Py.range lo hi = [].
Proof.
  intros H. unfold Py.range. replace (Z.to_nat (hi - lo)) with O by lia.
  reflexivity.
Qed.

Lemma range_cons (lo hi : Z) :
  lo < hi -> Py.range lo hi = lo :: Py.range (lo + 1) hi.
Proof.
  intros H. unfold Py.range.
  replace (Z.to_nat (hi - lo)) with (S (Z.to_nat (hi - (lo + 1)))) by lia.
  simpl. f_equal; [lia|]. rewrite <- seq_shift, map_map.
  apply map_ext. intros k. lia.
Qed.

Lemma range_snoc (lo hi : Z) :
  lo < hi -> Py.range lo hi = Py.range lo (hi - 1) ++ [hi - 1].
Proof.
  intros H. unfold Py.range.
  replace (Z.to_nat (hi - lo)) with (S (Z.to_nat (hi - 1 - lo))) by lia.
  rewrite seq_S, map_app. simpl. do 2 f_equal. lia.
Qed.

Lemma index_in_bounds {A : Type} (s : list A) (i : Z) :
  0 <= i < Py.len s ->
  exists a, Py.index s i = Ok a /\ nth_error s (Z.to_nat i) = Some a.
Proof.
  intros H. unfold Py.index.
  replace (i <? 0) with false by (symmetry; apply Z.ltb_ge; lia).
  replace (0 <=? i) with true by (symmetry; apply Z.leb_le; lia).
  replace (i <? Py.len s) with true by (symmetry; apply Z.ltb_lt; lia).
  simpl. destruct (nth_error s (Z.to_nat i)) as [a|] eqn:E.
  - now exists a.
  - apply nth_error_None in E. unfold Py.len in H. lia.
Qed.

Lemma slice_length {A : Type} (s : list A) (lo hi : option Z) :
  Py.len (Py.slice s lo hi) =
  let n := Py.len s in
  let a := match lo with Some i => Py.clip n i | None => 0 end in
  let b := match hi with Some i => Py.clip n i | None => n end in
  Z.max 0 (b - a).
Proof.
  unfold Py.slice. cbv zeta.
  set (a := match lo with Some i => _ | None => _ end).
  set (b := match hi with Some i => _ | None => _ end).
  assert (Ha : 0 <= a <= Py.len s).
  { unfold a. destruct lo; [unfold Py.clip|]; pose proof (len_nonneg s); lia. }
  assert (Hb : 0 <= b <= Py.len s).
  { unfold b. destruct hi; [unfold Py.clip|]; pose proof (len_nonneg s); lia. }
  unfold Py.len in *. rewrite length_firstn, length_skipn. lia.
Qed.

(** ** [score] *)

Lemma score_range_in (s1 s2 : Sequence) (offset p : Z) :
  In p (score_range s1 s2 offset) <->
  0 <= p < Py.len s2 /\ 0 <= p + offset < Py.len s1 /\ p + offset < Py.len s2.
Proof. unfold score_range. rewrite range_in. lia. Qed.

Lemma score_test_in_bounds (s1 s2 : Sequence) (offset p : Z) :
  0 <= p < Py.len s2 -> 0 <= p + offset < Py.len s1 ->
  score_test s1 s2 offset p = Ok (hit s1 s2 offset p).
Proof.
  intros H2 H1. unfold score_test, hit.
  destruct (index_in_bounds s2 p H2) as (a & -> & ->).
  destruct (index_in_bounds s1 (p + offset) H1) as (b & -> & ->).
  reflexivity.
Qed.

Lemma count_hits_cons (s1 s2 : Sequence) (offset p : Z) (ps : list Z) :
  count_hits s1 s2 offset (p :: ps) =
  (if hit s1 s2 offset p then 1 else 0) + count_hits s1 s2 offset ps.
Proof.
  unfold count_hits, Py.len. cbn [filter].
  destruct (hit s1 s2 offset p); cbn [length]; lia.
Qed.

Lemma count_hits_bounds (s1 s2 : Sequence) (offset : Z) (ps : list Z) :
  0 <= count_hits s1 s2 offset ps <= Py.len ps.
Proof.
  unfold count_hits, Py.len.
  pose proof (filter_length_le (hit s1 s2 offset) ps). lia.
Qed.

Lemma score_sum_in_bounds (s1 s2 : Sequence) (offset : Z) (ps : list Z) :
  (forall p, In p ps -> 0 <= p < Py.len s2 /\ 0 <= p + offset < Py.len s1) ->
  forall total,
    score_sum s1 s2 offset ps total = Ok (total + count_hits s1 s2 offset ps).
Proof.
  induction ps as [|p ps IH]; intros Hin total.
  - simpl. f_equal. unfold count_hits, Py.len. simpl. lia.
  - simpl. destruct (Hin p (or_introl eq_refl)) as [H2 H1].
    rewrite (score_test_in_bounds _ _ _ _ H2 H1). simpl.
    rewrite IH by (intros q Hq; apply Hin; now right).
    rewrite count_hits_cons. f_equal.
    destruct (hit s1 s2 offset p); lia.
Qed.

(** The value of [score], as a total function. *)
Lemma score_value (s1 s2 : Sequence) (offset : Z) :
  score s1 s2 offset =
  Ok (count_hits s1 s2 offset (score_range s1 s2 offset)).
Proof.
  unfold score. rewrite score_sum_in_bounds.
  - reflexivity.
  - intros p Hp. apply score_range_in in Hp. lia.
Qed.

Lemma score_range_hits_bounds (s1 s2 : Sequence) (offset : Z) :
  0 <= count_hits s1 s2 offset (score_range s1 s2 offset)
    <= Z.min (Py.len s1) (Py.len s2).
Proof.
  pose proof (count_hits_bounds s1 s2 offset (score_range s1 s2 offset)) as H.
  set (s := count_hits s1 s2 offset (score_range s1 s2 offset)) in *.
  unfold score_range in H. rewrite range_length in H.
  pose proof (len_nonneg s1). pose proof (len_nonneg s2). lia.
Qed.

(** C10: whatever the offset, every position that [score] visits is an
    index of [sequence2] and, shifted by the offset, an index of
    [sequence1]; so each of its tests reads two characters and yields a
    boolean, and [score] returns a number: it never raises [IndexError]. *)
Theorem score_reads_in_bounds (sequence1 sequence2 : Sequence) (offset : Z) :
  (forall position, In position (score_range sequence1 sequence2 offset) ->
     (0 <= position < Py.len sequence2 /\
      0 <= position + offset < Py.len sequence1) /\
     (exists a b,
        Py.index sequence2 position = Ok a /\
        Py.index sequence1 (position + offset) = Ok b /\
        score_test sequence1 sequence2 offset position = Ok (Ascii.eqb a b)))
  /\ exists n, score sequence1 sequence2 offset = Ok n.
Proof.
  split.
  - intros p Hp. apply score_range_in in Hp.
    destruct Hp as (H2 & H1 & _). split; [auto|].
    destruct (index_in_bounds sequence2 p H2) as (a & Ha & _).
    destruct (index_in_bounds sequence1 (p + offset) H1) as (b & Hb & _).
    exists a, b. unfold score_test. rewrite Ha, Hb. auto.
  - eexists. apply score_value.
Qed.

(** C9: at every offset of the scanned range
    [1 - len(B) .. len(A) - 1], [score(A, B, offset)] is a number between
    0 and [min(len(A), len(B))]. *)
Theorem score_bounds (A B : Sequence) (offset : Z) :
  1 - Py.len B <= offset <= Py.len A - 1 ->
  exists s, score A B offset = Ok s /\
            0 <= s <= Z.min (Py.len A) (Py.len B).
Proof.
  intros _. eexists. split; [apply score_value|]. apply score_range_hits_bounds.
Qed.

Lemma score_bounds_witness :
  exists s, score (dna "ATCGT") (dna "CGTAC") 2 = Ok s /\
            0 <= s <= Z.min (Py.len (dna "ATCGT")) (Py.len (dna "CGTAC")).
Proof. apply (score_bounds (dna "ATCGT") (dna "CGTAC") 2). vm_compute. split; discriminate. Defined.

Lemma range_shift (lo : Z) (a n start : nat) :
  map (fun k => lo + Z.of_nat k) (seq (a + start) n) =
  map (fun k => lo + Z.of_nat a + Z.of_nat k) (seq start n).
Proof.
  revert start. induction n as [|n IH]; intros start; simpl; [reflexivity|].
  f_equal; [lia|]. rewrite <- Nat.add_succ_r. apply IH.
Qed.

Lemma range_app (lo mid hi : Z) :
  lo <= mid <= hi -> Py.range lo hi = Py.range lo mid ++ Py.range mid hi.
Proof.
  intros H. unfold Py.range.
  replace (Z.to_nat (hi - lo))
    with (Z.to_nat (mid - lo) + Z.to_nat (hi - mid))%nat by lia.
  rewrite seq_app, map_app. f_equal.
  rewrite Nat.add_comm, range_shift.
  apply map_ext. intros k. lia.
Qed.

Lemma filter_none {A : Type} (f : A -> bool) (l : list A) :
  (forall a, In a l -> f a = false) -> filter f l = [].
Proof.
  induction l as [|a l IH]; intros H; simpl; [reflexivity|].
  rewrite (H a (or_introl eq_refl)). apply IH. intros b Hb. apply H. now right.
Qed.

(** Filtering a range only needs the part of it where the test can hold. *)
Lemma filter_range_narrow (f : Z -> bool) (lo hi lo' hi' : Z) :
  lo <= lo' -> hi' <= hi ->
  (forall p, lo <= p < hi -> f p = true -> lo' <= p < hi') ->
  filter f (Py.range lo hi) = filter f (Py.range lo' hi').
Proof.
  intros Hlo Hhi Hf.
  assert (Hout : forall p, lo <= p < hi -> ~ lo' <= p < hi' -> f p = false).
  { intros p Hp Hn. destruct (f p) eqn:E; [|reflexivity].
    exfalso. apply Hn. now apply Hf. }
  destruct (Z_le_gt_dec lo' hi') as [Hle|Hgt].
  - rewrite (range_app lo lo' hi) by lia.
    rewrite (range_app lo' hi' hi) by lia.
    rewrite !filter_app.
    rewrite (filter_none f (Py.range lo lo')), (filter_none f (Py.range hi' hi)).
    + now rewrite app_nil_r.
    + intros p Hp. apply range_in in Hp. apply Hout; lia.
    + intros p Hp. apply range_in in Hp. apply Hout; lia.
  - rewrite (range_empty lo' hi') by lia. simpl.
    apply filter_none. intros p Hp. apply range_in in Hp. apply Hout; lia.
Qed.

(** What [score] counts: the positions of the specification's overlap
    that, shifted by the offset, are also below [len(sequence2)]. *)
Lemma score_counts (s1 s2 : Sequence) (offset : Z) :
  score s1 s2 offset =
  Ok (Py.len (filter (fun p => overlap_hit s1 s2 offset p
                               && (p + offset <? Py.len s2))
                     (Py.range 0 (Py.len s2)))).
Proof.
  rewrite score_value. unfold count_hits, score_range. do 2 f_equal.
  set (lo := Z.max (0 - offset) 0).
  set (hi := Z.min (Z.min (Py.len s2 - offset) (Py.len s2)) (Py.len s1 - offset)).
  rewrite (filter_range_narrow _ 0 (Py.len s2) lo hi).
  - apply filter_ext_in. intros p Hp. apply range_in in Hp.
    unfold overlap_hit.
    replace (0 <=? p) with true by (symmetry; apply Z.leb_le; lia).
    replace (p <? Py.len s2) with true by (symmetry; apply Z.ltb_lt; lia).
    replace (0 <=? p + offset) with true by (symmetry; apply Z.leb_le; lia).
    replace (p + offset <? Py.len s1) with true by (symmetry; apply Z.ltb_lt; lia).
    replace (p + offset <? Py.len s2) with true by (symmetry; apply Z.ltb_lt; lia).
    simpl. now rewrite andb_true_r.
  - lia.
  - lia.
  - intros p Hp. unfold overlap_hit. rewrite !andb_true_iff.
    rewrite !Z.leb_le, !Z.ltb_lt. lia.
Qed.

(** At an offset that is not positive, [score] is the specification's
    overlap count. *)
Lemma score_overlap_count_nonpositive (s1 s2 : Sequence) (offset : Z) :
  offset <= 0 -> score s1 s2 offset = Ok (overlap_count s1 s2 offset).
Proof.
  intros H. rewrite score_counts. unfold overlap_count. do 2 f_equal.
  apply filter_ext_in. intros p Hp. apply range_in in Hp.
  replace (p + offset <? Py.len s2) with true by (symmetry; apply Z.ltb_lt; lia).
  apply andb_true_r.
Qed.

(** C3: [score] does not count every position where both sequences are
    defined and equal. With ["AA"] slid to index 1 of ["AAAA"], positions 0
    and 1 of ["AA"] both face an equal character of ["AAAA"], so the
    overlap count is 2; [score] stops at [len(sequence2) - offset = 1] and
    returns 1. *)
Theorem score_undercounts_positive_offset :
  overlap_count (dna "AAAA") (dna "AA") 1 = 2 /\
  score (dna "AAAA") (dna "AA") 1 = Ok 1 /\
  score_range (dna "AAAA") (dna "AA") 1 = [0].
Proof. repeat split; reflexivity. Qed.

(** ** [consensus] *)

Lemma clip_nonneg (n i : Z) : 0 <= i -> Py.clip n i = Z.max 0 (Z.min n i).
Proof.
  intros H. unfold Py.clip. destruct (Z.ltb_spec i 0); [lia|reflexivity].
Qed.

Lemma consensus_length_nonneg_start (s offset : Z) (A B : Sequence) :
  0 <= Py.len A + offset ->
  Py.len (consensus s offset A B) =
  Z.min (Py.len B) (Z.max 0 offset) + Py.len A
  + Z.max 0 (Py.len B - (Py.len A + offset)).
Proof.
  intros H. unfold consensus. rewrite !len_app, !slice_length. cbv zeta.
  rewrite !clip_nonneg by lia.
  pose proof (len_nonneg A). pose proof (len_nonneg B). lia.
Qed.

(** C4: at every offset of the range [1 - len(A) .. len(B) - 1], the
    length of [consensus(s, off, A, B)] is
    [max(0, off) + len(A) + max(0, len(B) - (len(A) + off))]. *)
Theorem consensus_length (s off : Z) (A B : Sequence) :
  1 - Py.len A <= off <= Py.len B - 1 ->
  Py.len (consensus s off A B) =
  Z.max 0 off + Py.len A + Z.max 0 (Py.len B - (Py.len A + off)).
Proof.
  intros H. rewrite consensus_length_nonneg_start by lia.
  pose proof (len_nonneg B). lia.
Qed.

Lemma consensus_length_witness :
  Py.len (consensus 3 2 (dna "CGTAC") (dna "ATCGT")) =
  Z.max 0 2 + Py.len (dna "CGTAC")
  + Z.max 0 (Py.len (dna "ATCGT") - (Py.len (dna "CGTAC") + 2)).
Proof. apply (consensus_length 3 2 (dna "CGTAC") (dna "ATCGT")). vm_compute. split; discriminate. Defined.

(** The merge is at least as long as each of its two arguments. *)
Lemma consensus_length_ge (s offset : Z) (A B : Sequence) :
  1 - Py.len A <= offset <= Py.len B - 1 ->
  Py.len A <= Py.len (consensus s offset A B) /\
  Py.len B <= Py.len (consensus s offset A B).
Proof.
  intros H. rewrite consensus_length_nonneg_start by lia.
  pose proof (len_nonneg A). pose proof (len_nonneg B). lia.
Qed.

(** ** [find_best_offset] *)

Lemma mapM_total {A B : Type} (f : A -> result B) (g : A -> B) (l : list A) :
  (forall a, In a l -> f a = Ok (g a)) -> mapM f l = Ok (map g l).
Proof.
  induction l as [|a l IH]; intros H; simpl; [reflexivity|].
  rewrite (H a (or_introl eq_refl)). simpl.
  rewrite IH by (intros b Hb; apply H; now right). reflexivity.
Qed.

Lemma mapM_ok_inv {A B : Type} (f : A -> result B) (l : list A) (bs : list B) :
  mapM f l = Ok bs -> Forall2 (fun a b => f a = Ok b) l bs.
Proof.
  revert bs. induction l as [|a l IH]; intros bs; simpl.
  - intros [= <-]. constructor.
  - destruct (f a) as [b|e] eqn:Ea; simpl; [|discriminate].
    destruct (mapM f l) as [bs'|e] eqn:El; simpl; [|discriminate].
    intros [= <-]. constructor; auto.
Qed.

Lemma mapM_raise {A B : Type} (f : A -> result B) (l : list A) (a : A) (e : exn) :
  In a l -> f a = Raise e ->
  (forall a' e', In a' l -> f a' = Raise e' -> e' = e) ->
  mapM f l = Raise e.
Proof.
  induction l as [|x l IH]; intros Hin Ha Hall; [destruct Hin|].
  simpl. destruct (f x) as [b|e'] eqn:Ex; simpl.
  - destruct Hin as [->|Hin]; [congruence|].
    rewrite IH; auto. intros a' e' Ha' He'. apply (Hall a' e'); [now right|auto].
  - f_equal. apply (Hall x e'); [now left|auto].
Qed.

Lemma find_best_offset_max (s1 s2 : Sequence) :
  find_best_offset s1 s2 =
  py_max tuple_compare
         (map (offset_item s1 s2) (Py.range (1 - Py.len s2) (Py.len s1))).
Proof.
  unfold find_best_offset.
  rewrite (mapM_total _ (offset_item s1 s2)); [reflexivity|].
  intros offset _. now rewrite score_value.
Qed.

Lemma find_best_offset_raises (s1 s2 : Sequence) :
  Py.len s1 + Py.len s2 <= 1 -> find_best_offset s1 s2 = Raise ValueError.
Proof.
  intros H. rewrite find_best_offset_max, range_empty by lia. reflexivity.
Qed.

Lemma tuple_le_inv (s o s' o' : Z) (a b a' b' : Sequence) :
  cmp_le tuple_compare (s', o', a', b') (s, o, a, b) ->
  s' <= s /\ (s' = s -> o' <= o).
Proof.
  unfold cmp_le, tuple_compare, lex_compare. simpl.
  destruct (Z.compare_spec s' s) as [->| |]; [|lia|congruence].
  destruct (Z.compare_spec o' o); [lia|lia|congruence].
Qed.

(** When the two lengths add up to 2 or more, [find_best_offset] returns
    the item of an offset of the scanned range that no item of the range
    exceeds. *)
Lemma find_best_offset_returns (s1 s2 : Sequence) :
  2 <= Py.len s1 + Py.len s2 ->
  exists offset,
    find_best_offset s1 s2 = Ok (offset_item s1 s2 offset) /\
    1 - Py.len s2 <= offset <= Py.len s1 - 1 /\
    forall offset', 1 - Py.len s2 <= offset' <= Py.len s1 - 1 ->
      cmp_le tuple_compare (offset_item s1 s2 offset') (offset_item s1 s2 offset).
Proof.
  intros H. rewrite find_best_offset_max.
  destruct (py_max_spec tuple_compare
              (map (offset_item s1 s2) (Py.range (1 - Py.len s2) (Py.len s1))))
    as (m & Hm & Hin & Hup).
  - rewrite (range_cons (1 - Py.len s2) (Py.len s1)) by lia. discriminate.
  - apply in_map_iff in Hin. destruct Hin as (offset & <- & Hoff).
    apply range_in in Hoff. exists offset. split; [exact Hm|]. split; [lia|].
    intros offset' H'. apply Hup. apply in_map. apply range_in. lia.
Qed.

Lemma find_best_offset_ok_inv (s1 s2 : Sequence) (m : Match) :
  find_best_offset s1 s2 = Ok m ->
  2 <= Py.len s1 + Py.len s2 /\ m_matched m = s2 /\ m_base m = s1 /\
  1 - Py.len s2 <= m_offset m <= Py.len s1 - 1.
Proof.
  intros Hm. destruct (Z_le_gt_dec (Py.len s1 + Py.len s2) 1) as [Hle|Hgt].
  - rewrite find_best_offset_raises in Hm by exact Hle. discriminate.
  - destruct (find_best_offset_returns s1 s2) as (offset & Ho & Hr & _); [lia|].
    rewrite Hm in Ho. injection Ho as ->.
    unfold offset_item, m_matched, m_base, m_offset. cbn [fst snd].
    repeat split; lia.
Qed.

(** C5: for two non-empty sequences, [find_best_offset] returns the tuple
    [(score, offset, sequence2, sequence1)] of an offset of
    [1 - len(sequence2) .. len(sequence1) - 1] that is maximal for the
    tuple order among the tuples of all offsets of that range: no offset
    of the range scores higher, and an offset with the same score is not
    larger. *)
Theorem find_best_offset_maximal (sequence1 sequence2 : Sequence) :
  sequence1 <> [] -> sequence2 <> [] ->
  exists s offset,
    find_best_offset sequence1 sequence2 = Ok (s, offset, sequence2, sequence1) /\
    1 - Py.len sequence2 <= offset <= Py.len sequence1 - 1 /\
    score sequence1 sequence2 offset = Ok s /\
    forall offset',
      1 - Py.len sequence2 <= offset' <= Py.len sequence1 - 1 ->
      exists s',
        score sequence1 sequence2 offset' = Ok s' /\
        cmp_le tuple_compare (s', offset', sequence2, sequence1)
                             (s, offset, sequence2, sequence1) /\
        s' <= s /\ (s' = s -> offset' <= offset).
Proof.
  intros H1 H2.
  assert (Hlen : 2 <= Py.len sequence1 + Py.len sequence2).
  { apply len_pos in H1, H2. lia. }
  destruct (find_best_offset_returns _ _ Hlen) as (offset & Hm & Hr & Hup).
  exists (count_hits sequence1 sequence2 offset
                     (score_range sequence1 sequence2 offset)), offset.
  split; [exact Hm|]. split; [exact Hr|]. split; [apply score_value|].
  intros offset' Hr'. eexists. split; [apply score_value|].
  specialize (Hup offset' Hr'). split; [exact Hup|].
  exact (tuple_le_inv _ _ _ _ _ _ _ _ Hup).
Qed.

Lemma find_best_offset_maximal_witness :
  exists s offset,
    find_best_offset (dna "ATCGT") (dna "CGTAC")
    = Ok (s, offset, dna "CGTAC", dna "ATCGT") /\
    1 - Py.len (dna "CGTAC") <= offset <= Py.len (dna "ATCGT") - 1 /\
    score (dna "ATCGT") (dna "CGTAC") offset = Ok s /\
    forall offset',
      1 - Py.len (dna "CGTAC") <= offset' <= Py.len (dna "ATCGT") - 1 ->
      exists s',
        score (dna "ATCGT") (dna "CGTAC") offset' = Ok s' /\
        cmp_le tuple_compare (s', offset', dna "CGTAC", dna "ATCGT")
                             (s, offset, dna "CGTAC", dna "ATCGT") /\
        s' <= s /\ (s' = s -> offset' <= offset).
Proof.
  apply (find_best_offset_maximal (dna "ATCGT") (dna "CGTAC")); discriminate.
Defined.

(** A tie between two offsets goes to the larger one: ["AB"] against
    ["AB"] scores 0 at offsets -1 and 1, and 2 at offset 0; ["AB"] against
    ["CD"] scores 0 everywhere and the largest offset, 1, is returned. *)
Example find_best_offset_tie :
  find_best_offset (dna "AB") (dna "CD") = Ok (0, 1, dna "CD", dna "AB") /\
  find_best_offset (dna "AB") (dna "AB") = Ok (2, 0, dna "AB", dna "AB").
Proof. split; reflexivity. Qed.

Lemma score_zero_of_empty (s1 s2 : Sequence) (offset : Z) :
  s1 = [] \/ s2 = [] ->
  count_hits s1 s2 offset (score_range s1 s2 offset) = 0.
Proof.
  intros H. pose proof (score_range_hits_bounds s1 s2 offset) as Hb.
  pose proof (len_nonneg s1). pose proof (len_nonneg s2).
  assert (Py.len s1 = 0 \/ Py.len s2 = 0) by (rewrite !len_nil_iff; exact H).
  lia.
Qed.

(** C2, as the code has it: when one of the two sequences is empty,
    [find_best_offset] raises [ValueError] if the other one has at most one
    character, and otherwise returns the match of score 0 at the last
    offset of the scanned range, [len(sequence1) - 1]; that offset is -1
    when [sequence1] is the empty one and is never 0. *)
Theorem find_best_offset_empty (sequence1 sequence2 : Sequence) :
  sequence1 = [] \/ sequence2 = [] ->
  (Py.len sequence1 + Py.len sequence2 <= 1 ->
   find_best_offset sequence1 sequence2 = Raise ValueError) /\
  (2 <= Py.len sequence1 + Py.len sequence2 ->
   find_best_offset sequence1 sequence2
   = Ok (0, Py.len sequence1 - 1, sequence2, sequence1) /\
   Py.len sequence1 - 1 <> 0).
Proof.
  intros Hempty. split; [apply find_best_offset_raises|].
  intros Hlen.
  destruct (find_best_offset_returns _ _ Hlen) as (offset & Hm & Hr & Hup).
  specialize (Hup (Py.len sequence1 - 1)).
  unfold offset_item in *. rewrite !score_zero_of_empty in * by exact Hempty.
  apply tuple_le_inv in Hup; [|lia].
  assert (Py.len sequence1 = 0 \/ Py.len sequence2 = 0)
    by (rewrite !len_nil_iff; exact Hempty).
  replace (Py.len sequence1 - 1) with offset by lia.
  split; [exact Hm|lia].
Qed.

Lemma find_best_offset_empty_witness :
  find_best_offset (dna "A") (dna "") = Raise ValueError /\
  find_best_offset (dna "") (dna "AB") = Ok (0, -1, dna "AB", dna "").
Proof.
  split.
  - apply (find_best_offset_empty (dna "A") (dna "")).
    + right. reflexivity.
    + vm_compute. discriminate.
  - apply (find_best_offset_empty (dna "") (dna "AB")).
    + left. reflexivity.
    + vm_compute. discriminate.
Defined.

(** C2 fails as stated: with [sequence1] empty and [sequence2 = "AB"] the
    returned offset is -1, and with ["A"] against the empty sequence
    [find_best_offset] raises. *)
Lemma find_best_offset_empty_counterexample :
  (dna "" = [] \/ dna "AB" = []) /\
  find_best_offset (dna "") (dna "AB") = Ok (0, -1, dna "AB", dna "") /\
  find_best_offset (dna "A") (dna "") = Raise ValueError /\
  ~ (forall sequence1 sequence2 : Sequence,
       sequence1 = [] \/ sequence2 = [] ->
       exists m, find_best_offset sequence1 sequence2 = Ok m /\
                 m_score m = 0 /\ m_offset m = 0).
Proof.
  split; [now left|]. split; [reflexivity|]. split; [reflexivity|].
  intros H. destruct (H (dna "") (dna "AB")) as (m & Hm & _ & Ho); [now left|].
  vm_compute in Hm. injection Hm as <-. discriminate Ho.
Qed.

(** ** [find_best_match] *)

Lemma mapM_all_ok {A B : Type} (f : A -> result B) (l : list A) :
  (forall a, In a l -> exists b, f a = Ok b) ->
  exists bs, mapM f l = Ok bs /\ Forall2 (fun a b => f a = Ok b) l bs.
Proof.
  intros H. assert (exists bs, mapM f l = Ok bs) as [bs Hbs].
  { induction l as [|a l IH]; simpl; [now exists []|].
    destruct (H a (or_introl eq_refl)) as [b ->]. simpl.
    destruct IH as [bs ->]; [intros x Hx; apply H; now right|].
    simpl. now exists (b :: bs). }
  exists bs. split; [exact Hbs|]. now apply mapM_ok_inv.
Qed.

Lemma Forall2_in_l {A B : Type} (R : A -> B -> Prop) (l : list A) (bs : list B) (a : A) :
  Forall2 R l bs -> In a l -> exists b, In b bs /\ R a b.
Proof.
  induction 1 as [|x y l bs Hxy _ IH]; intros Hin; [destruct Hin|].
  destruct Hin as [->|Hin].
  - exists y. split; [now left|exact Hxy].
  - destruct (IH Hin) as (b & Hb & HR). exists b. split; [now right|exact HR].
Qed.

Lemma Forall2_in_r {A B : Type} (R : A -> B -> Prop) (l : list A) (bs : list B) (b : B) :
  Forall2 R l bs -> In b bs -> exists a, In a l /\ R a b.
Proof.
  induction 1 as [|x y l bs Hxy _ IH]; intros Hin; [destruct Hin|].
  destruct Hin as [->|Hin].
  - exists x. split; [now left|exact Hxy].
  - destruct (IH Hin) as (a & Ha & HR). exists a. split; [now right|exact HR].
Qed.

(** The candidates that [find_best_match] keeps. *)
Lemma eligible_in (sequence c : Sequence) (others : list Sequence) :
  In c (filter (fun sequence2 => negb (seq_eqb sequence2 sequence)) others) <->
  In c others /\ c <> sequence.
Proof. now rewrite filter_In, negb_true_iff, seq_eqb_neq. Qed.

Lemma find_best_offset_raise_inv (s1 s2 : Sequence) (e : exn) :
  find_best_offset s1 s2 = Raise e ->
  e = ValueError /\ Py.len s1 + Py.len s2 <= 1.
Proof.
  intros H. destruct (Z_le_gt_dec (Py.len s1 + Py.len s2) 1) as [Hle|Hgt].
  - rewrite find_best_offset_raises in H by exact Hle. now injection H as <-.
  - destruct (find_best_offset_returns s1 s2) as (o & Ho & _); [lia|congruence].
Qed.

Lemma find_best_match_no_candidate (sequence : Sequence) (others : list Sequence) :
  (forall c, In c others -> c = sequence) ->
  find_best_match sequence others = Raise ValueError.
Proof.
  intros H. unfold find_best_match. rewrite filter_none; [reflexivity|].
  intros c Hc. apply negb_false_iff, seq_eqb_eq. now apply H.
Qed.

Lemma find_best_match_ok_inv (sequence : Sequence) (others : list Sequence)
      (m : Match) :
  find_best_match sequence others = Ok m ->
  (exists c, In c others /\ c <> sequence /\ find_best_offset sequence c = Ok m) /\
  forall c' m', In c' others -> c' <> sequence ->
                find_best_offset sequence c' = Ok m' ->
                cmp_le tuple_compare m' m.
Proof.
  unfold find_best_match.
  destruct (mapM _ _) as [items|e] eqn:Hitems; simpl; [|discriminate].
  intros Hmax. apply mapM_ok_inv in Hitems.
  apply (py_max_ok_inv tuple_compare) in Hmax. destruct Hmax as [Hin Hup].
  split.
  - destruct (Forall2_in_r _ _ _ _ Hitems Hin) as (c & Hc & Hcm).
    apply eligible_in in Hc. exists c. tauto.
  - intros c' m' Hc' Hne Hm'.
    destruct (Forall2_in_l _ _ _ c' Hitems) as (b & Hb & Hcb).
    + apply eligible_in. auto.
    + rewrite Hm' in Hcb. injection Hcb as ->. now apply Hup.
Qed.

Lemma find_best_match_returns (sequence : Sequence) (others : list Sequence) :
  (exists c, In c others /\ c <> sequence) ->
  (forall c, In c others -> c <> sequence ->
             2 <= Py.len sequence + Py.len c) ->
  exists m, find_best_match sequence others = Ok m.
Proof.
  intros (c & Hc & Hne) Hlen. unfold find_best_match.
  destruct (mapM_all_ok (fun sequence2 => find_best_offset sequence sequence2)
              (filter (fun sequence2 => negb (seq_eqb sequence2 sequence)) others))
    as (items & -> & Hitems).
  - intros a Ha. apply eligible_in in Ha. destruct Ha as [Ha Hane].
    destruct (find_best_offset_returns sequence a (Hlen a Ha Hane)) as (o & -> & _).
    eauto.
  - simpl. destruct (py_max_spec tuple_compare items) as (m & -> & _); [|eauto].
    destruct (Forall2_in_l _ _ _ c Hitems) as (b & Hb & _).
    + apply eligible_in. auto.
    + intros ->. destruct Hb.
Qed.

Lemma find_best_match_raise_inv (sequence : Sequence) (others : list Sequence)
      (e : exn) :
  find_best_match sequence others = Raise e -> e = ValueError.
Proof.
  unfold find_best_match.
  destruct (mapM _ _) as [items|e'] eqn:Hitems; simpl.
  - destruct items; simpl; [now intros [= <-]|discriminate].
  - intros [= <-]. revert Hitems.
    induction (filter _ others) as [|c l IH]; simpl; [discriminate|].
    destruct (find_best_offset sequence c) as [b|e1] eqn:Ec; simpl.
    + destruct (mapM _ l); simpl; [discriminate|]. intros [= <-]. now apply IH.
    + intros [= <-]. now apply find_best_offset_raise_inv in Ec.
Qed.

Lemma find_best_match_ok_all (sequence : Sequence) (others : list Sequence)
      (m : Match) :
  find_best_match sequence others = Ok m ->
  forall c, In c others -> c <> sequence ->
            exists b, find_best_offset sequence c = Ok b.
Proof.
  unfold find_best_match.
  destruct (mapM _ _) as [items|e] eqn:Hitems; simpl; [|discriminate].
  intros _ c Hc Hne. apply mapM_ok_inv in Hitems.
  destruct (Forall2_in_l _ _ _ c Hitems) as (b & _ & Hb); [|eauto].
  apply eligible_in. auto.
Qed.

Lemma find_best_match_short_candidate (sequence : Sequence) (others : list Sequence) :
  (exists c, In c others /\ c <> sequence /\ Py.len sequence + Py.len c <= 1) ->
  find_best_match sequence others = Raise ValueError.
Proof.
  intros (c & Hc & Hne & Hlen).
  destruct (find_best_match sequence others) as [m|e] eqn:E.
  - destruct (find_best_match_ok_all _ _ _ E c Hc Hne) as [b Hb].
    rewrite find_best_offset_raises in Hb by exact Hlen. discriminate.
  - f_equal. now apply find_best_match_raise_inv in E.
Qed.

(** C8, as the code has it: [find_best_match] raises [ValueError] when
    every candidate equals the sequence, and also when [find_best_offset]
    raises for a candidate that differs from it (the two lengths add up to
    at most 1); when some candidate differs and the lengths of the sequence
    and of each differing candidate add up to 2 or more, it returns the
    result of [find_best_offset] for a differing candidate that is maximal
    for the tuple order among the results for all differing candidates. *)
Theorem find_best_match_spec (sequence : Sequence) (candidates : list Sequence) :
  ((forall c, In c candidates -> c = sequence) ->
   find_best_match sequence candidates = Raise ValueError) /\
  ((exists c, In c candidates /\ c <> sequence /\
              Py.len sequence + Py.len c <= 1) ->
   find_best_match sequence candidates = Raise ValueError) /\
  ((exists c, In c candidates /\ c <> sequence) ->
   (forall c, In c candidates -> c <> sequence ->
              2 <= Py.len sequence + Py.len c) ->
   exists m c,
     find_best_match sequence candidates = Ok m /\
     In c candidates /\ c <> sequence /\
     find_best_offset sequence c = Ok m /\
     forall c' m', In c' candidates -> c' <> sequence ->
                   find_best_offset sequence c' = Ok m' ->
                   cmp_le tuple_compare m' m).
Proof.
  split; [apply find_best_match_no_candidate|].
  split; [apply find_best_match_short_candidate|].
  intros Hex Hlen.
  destruct (find_best_match_returns _ _ Hex Hlen) as [m Hm].
  destruct (find_best_match_ok_inv _ _ _ Hm) as [(c & Hc & Hne & Hcm) Hup].
  exists m, c. auto.
Qed.

Lemma find_best_match_spec_witness :
  find_best_match (dna "ATCGT") [dna "ATCGT"; dna "ATCGT"] = Raise ValueError /\
  find_best_match (dna "") [dna "A"] = Raise ValueError /\
  exists m c,
    find_best_match (dna "ATCGT") [dna "ATCGT"; dna "CGTAC"; dna "TACGG"] = Ok m /\
    In c [dna "ATCGT"; dna "CGTAC"; dna "TACGG"] /\ c <> dna "ATCGT" /\
    find_best_offset (dna "ATCGT") c = Ok m /\
    forall c' m', In c' [dna "ATCGT"; dna "CGTAC"; dna "TACGG"] ->
                  c' <> dna "ATCGT" ->
                  find_best_offset (dna "ATCGT") c' = Ok m' ->
                  cmp_le tuple_compare m' m.
Proof.
  split; [|split].
  - apply (proj1 (find_best_match_spec (dna "ATCGT") [dna "ATCGT"; dna "ATCGT"])).
    intros c [<-|[<-|[]]]; reflexivity.
  - apply (proj1 (proj2 (find_best_match_spec (dna "") [dna "A"]))).
    exists (dna "A"). split; [now left|]. split; [discriminate|].
    vm_compute. discriminate.
  - apply (proj2 (proj2 (find_best_match_spec (dna "ATCGT")
             [dna "ATCGT"; dna "CGTAC"; dna "TACGG"]))).
    + exists (dna "CGTAC"). split; [right; now left|discriminate].
    + intros c [<-|[<-|[<-|[]]]] _; vm_compute; discriminate.
Defined.

(** C8 fails as stated: the only candidate ["A"] differs from the empty
    sequence, and [find_best_match] raises instead of returning a
    maximum. *)
Lemma find_best_match_counterexample :
  (exists c, In c [dna "A"] /\ c <> dna "") /\
  find_best_match (dna "") [dna "A"] = Raise ValueError /\
  ~ (forall (sequence : Sequence) (candidates : list Sequence),
       (exists c, In c candidates /\ c <> sequence) ->
       exists m, find_best_match sequence candidates = Ok m).
Proof.
  assert (Hex : exists c, In c [dna "A"] /\ c <> dna "").
  { exists (dna "A"). split; [now left|discriminate]. }
  split; [exact Hex|]. split; [reflexivity|].
  intros H. destruct (H (dna "") [dna "A"] Hex) as [m Hm].
  vm_compute in Hm. discriminate.
Qed.

(** ** [assemble] *)

(** C1: for a pool of exactly one read, whatever the read,
    [assemble_helper] calls [assemble] with no other read; the test
    [len(others) == 1] fails, [find_best_match] takes [max] of no item, and
    the run ends in [ValueError] instead of returning the read. *)
Theorem assemble_helper_single_read (read : Sequence) :
  assemble_helper [read] = Some (Raise ValueError).
Proof. reflexivity. Qed.

Lemma drop_matched_without_value (best_match : Match) (others : list Sequence) :
  drop_matched best_match others = without_value (m_matched best_match) others.
Proof.
  unfold drop_matched, without_value.
  induction others as [|y others IH]; simpl; [reflexivity|].
  destruct (list_eq_dec ascii_dec (m_matched best_match) y) as [<-|Hne].
  - replace (seq_eqb _ _) with true by (symmetry; now apply seq_eqb_eq).
    simpl. exact IH.
  - replace (seq_eqb _ _) with false by (symmetry; apply seq_eqb_neq; congruence).
    simpl. now rewrite IH.
Qed.

Lemma drop_matched_in (best_match : Match) (others : list Sequence) (y : Sequence) :
  In y (drop_matched best_match others) <->
  In y others /\ y <> m_matched best_match.
Proof. unfold drop_matched. now rewrite filter_In, negb_true_iff, seq_eqb_neq. Qed.

Lemma without_value_count_other (x y : Sequence) (l : list Sequence) :
  y <> x ->
  count_occ (list_eq_dec ascii_dec) (without_value x l) y
  = count_occ (list_eq_dec ascii_dec) l y.
Proof.
  intros Hne. unfold without_value.
  induction l as [|a l IH]; simpl; [reflexivity|].
  destruct (list_eq_dec ascii_dec x a) as [<-|Hxa]; simpl.
  - destruct (list_eq_dec ascii_dec x y); [congruence|exact IH].
  - destruct (list_eq_dec ascii_dec a y); now rewrite IH.
Qed.

(** *** Termination *)

Lemma find_best_match_matched (sequence : Sequence) (others : list Sequence)
      (m : Match) :
  find_best_match sequence others = Ok m ->
  In (m_matched m) others /\ m_matched m <> sequence /\ m_base m = sequence /\
  2 <= Py.len sequence + Py.len (m_matched m) /\
  1 - Py.len (m_matched m) <= m_offset m <= Py.len sequence - 1.
Proof.
  intros H. apply find_best_match_ok_inv in H.
  destruct H as [(c & Hc & Hne & Hm) _].
  apply find_best_offset_ok_inv in Hm. destruct Hm as (Hlen & -> & -> & Hr).
  auto.
Qed.

Lemma drop_matched_shorter (m : Match) (others : list Sequence) :
  In (m_matched m) others ->
  (length (drop_matched m others) < length others)%nat.
Proof.
  intros H. rewrite drop_matched_without_value. unfold without_value.
  now apply remove_length_lt.
Qed.

(** As many nested calls as there are others are enough: the count never
    runs out. *)
Lemma assemble_fuel_enough (fuel : nat) (sequence : Sequence)
      (others : list Sequence) :
  (length others <= fuel)%nat ->
  exists r, assemble_fuel fuel sequence others = Some r.
Proof.
  revert sequence others. induction fuel as [|fuel IH]; intros sequence others H.
  - destruct others; [|simpl in H; lia]. simpl. eauto.
  - simpl. destruct (Py.len others =? 1); [eauto|].
    destruct (find_best_match sequence others) as [m|e] eqn:E; [|eauto].
    apply IH. apply find_best_match_matched in E. destruct E as [Hin _].
    apply drop_matched_shorter in Hin. lia.
Qed.

(** More nested calls than needed change nothing. *)
Lemma assemble_fuel_more (fuel fuel' : nat) (sequence : Sequence)
      (others : list Sequence) (r : result Sequence) :
  (fuel <= fuel')%nat ->
  assemble_fuel fuel sequence others = Some r ->
  assemble_fuel fuel' sequence others = Some r.
Proof.
  revert fuel' sequence others.
  induction fuel as [|fuel IH]; intros fuel' sequence others Hle; simpl.
  - destruct fuel'; simpl; [auto|].
    destruct (Py.len others =? 1); [auto|].
    destruct (find_best_match sequence others); [discriminate|auto].
  - destruct fuel' as [|fuel']; [lia|]. simpl.
    destruct (Py.len others =? 1); [auto|].
    destruct (find_best_match sequence others); [|auto].
    apply IH. lia.
Qed.

(** [assemble] and [assemble_helper] always end, with a sequence or with an
    exception. *)
Lemma assemble_total (sequence : Sequence) (others : list Sequence) :
  exists r, assemble sequence others = Some r.
Proof. apply assemble_fuel_enough. lia. Qed.

Lemma assemble_helper_total (reads : list Sequence) :
  exists r, assemble_helper reads = Some r.
Proof.
  unfold assemble_helper. destruct (Py.index reads 0); [|eauto].
  apply assemble_total.
Qed.

(** *** Pools of distinct reads *)

Lemma drop_matched_perm (m : Match) (others : list Sequence) :
  NoDup others -> In (m_matched m) others ->
  Permutation (m_matched m :: drop_matched m others) others.
Proof.
  unfold drop_matched. generalize (m_matched m). intros x.
  induction others as [|y others IH]; intros Hnd Hin; [destruct Hin|].
  inversion Hnd as [|? ? Hy Hnd']; subst. simpl. destruct Hin as [->|Hin].
  - replace (seq_eqb x x) with true by (symmetry; now apply seq_eqb_eq).
    simpl. apply perm_skip. rewrite forallb_filter_id.
    + reflexivity.
    + apply forallb_forall. intros z Hz. apply negb_true_iff, seq_eqb_neq.
      congruence.
  - replace (seq_eqb y x) with false by (symmetry; apply seq_eqb_neq; congruence).
    simpl. rewrite perm_swap. apply perm_skip. now apply IH.
Qed.

Lemma assemble_fuel_eq (fuel : nat) (sequence : Sequence) (others : list Sequence) :
  assemble_fuel fuel sequence others =
  if Py.len others =? 1 then
    Some (best_match <- find_best_match sequence others ;;
          Ok (consensus_of best_match))
  else
    match find_best_match sequence others with
    | Raise e => Some (Raise e)
    | Ok best_match =>
        match fuel with
        | O => None
        | S fuel' =>
            assemble_fuel fuel' (consensus_of best_match)
                          (drop_matched best_match others)
        end
    end.
Proof. destruct fuel; reflexivity. Qed.

Lemma assemble_calls_eq (fuel : nat) (sequence : Sequence) (others : list Sequence) :
  assemble_calls fuel sequence others =
  (sequence, others) ::
  if Py.len others =? 1 then []
  else
    match find_best_match sequence others with
    | Raise _ => []
    | Ok best_match =>
        match fuel with
        | O => []
        | S fuel' =>
            assemble_calls fuel' (consensus_of best_match)
                           (drop_matched best_match others)
        end
    end.
Proof. destruct fuel; reflexivity. Qed.

Lemma index_first {A : Type} (a : A) (l : list A) : Py.index (a :: l) 0 = Ok a.
Proof.
  destruct (index_in_bounds (a :: l) 0) as (b & -> & Hb).
  - unfold Py.len. simpl length. lia.
  - simpl in Hb. congruence.
Qed.

Lemma slice_rest {A : Type} (a : A) (l : list A) :
  Py.slice (a :: l) (Some 1) None = l.
Proof.
  unfold Py.slice. cbv zeta. rewrite clip_nonneg by lia.
  assert (H : Py.len (a :: l) = Py.len l + 1) by (unfold Py.len; simpl length; lia).
  pose proof (len_nonneg l).
  replace (Z.max 0 (Z.min (Py.len (a :: l)) 1)) with 1 by lia.
  change (Z.to_nat 1) with 1%nat. simpl skipn.
  replace (Z.to_nat (Py.len (a :: l) - 1)) with (length l) by (unfold Py.len in *; lia).
  apply firstn_all.
Qed.

(** *** The reduction that [assemble] follows *)

(** A run of the reduction is the run of [assemble]: with room for its
    nested calls [assemble] gives the outcome of the run and goes through
    its states; with less room the count of nested calls runs out. *)
Lemma assembles_fuel (sequence : Sequence) (others : list Sequence)
      (states : list (Sequence * list Sequence)) (r : result Sequence) :
  assembles sequence others states r ->
  forall fuel,
    ((length states <= S fuel)%nat ->
     assemble_fuel fuel sequence others = Some r /\
     assemble_calls fuel sequence others = states) /\
    ((S fuel < length states)%nat ->
     assemble_fuel fuel sequence others = None).
Proof.
  induction 1 as [current remaining m Hone Hm
                 |current remaining e He
                 |current remaining m states r Hlen Hm Hrun IH];
    intros fuel; rewrite assemble_fuel_eq, assemble_calls_eq.
  - replace (Py.len remaining =? 1) with true
      by (symmetry; apply Z.eqb_eq; unfold Py.len; lia).
    rewrite Hm. cbn [length bind]. split; [auto|lia].
  - rewrite He. cbn [length bind].
    destruct (Py.len remaining =? 1); split; (auto || lia).
  - replace (Py.len remaining =? 1) with false
      by (symmetry; apply Z.eqb_neq; unfold Py.len; lia).
    rewrite Hm, drop_matched_without_value. cbn [length].
    destruct fuel as [|fuel].
    + split; [|reflexivity]. intros Hle.
      inversion Hrun; subst; cbn [length] in Hle; lia.
    + destruct (IH fuel) as [IHsome IHnone]. split.
      * intros Hle. destruct IHsome as [-> ->]; [lia|]. auto.
      * intros Hlt. apply IHnone. lia.
Qed.

Lemma assemble_fuel_assembles (fuel : nat) :
  forall (sequence : Sequence) (others : list Sequence) (r : result Sequence),
    assemble_fuel fuel sequence others = Some r ->
    exists states,
      assembles sequence others states r /\ (length states <= S fuel)%nat.
Proof.
  induction fuel as [|fuel IH]; intros sequence others r;
    rewrite assemble_fuel_eq;
    destruct (Py.len others =? 1) eqn:Hone;
    destruct (find_best_match sequence others) as [m|e] eqn:Hm;
    cbn [bind]; try discriminate; intros [= <-] || intros Hrun.
  - exists [(sequence, others)]. split; [|cbn; lia].
    apply assembles_done; [|exact Hm].
    apply Z.eqb_eq in Hone. unfold Py.len in Hone. lia.
  - exists [(sequence, others)]. split; [|cbn; lia]. now apply assembles_fail.
  - exists [(sequence, others)]. split; [|cbn; lia]. now apply assembles_fail.
  - exists [(sequence, others)]. split; [|cbn; lia].
    apply assembles_done; [|exact Hm].
    apply Z.eqb_eq in Hone. unfold Py.len in Hone. lia.
  - exists [(sequence, others)]. split; [|cbn; lia]. now apply assembles_fail.
  - destruct (IH _ _ _ Hrun) as (states & Hstates & Hlen).
    exists ((sequence, others) :: states). split; [|cbn; lia].
    apply assembles_step with (m := m); [|exact Hm|].
    + apply Z.eqb_neq in Hone. unfold Py.len in Hone. lia.
    + now rewrite <- drop_matched_without_value.
  - exists [(sequence, others)]. split; [|cbn; lia]. now apply assembles_fail.
Qed.

(** A run has at most as many states as there are remaining candidates,
    and one state when there is none. *)
Lemma assembles_length (sequence : Sequence) (others : list Sequence)
      (states : list (Sequence * list Sequence)) (r : result Sequence) :
  assembles sequence others states r ->
  (1 <= length states <= Nat.max 1 (length others))%nat.
Proof.
  induction 1 as [current remaining m Hone Hm
                 |current remaining e He
                 |current remaining m states r Hlen Hm Hrun IH];
    cbn [length]; try lia.
  apply find_best_match_matched in Hm. destruct Hm as [Hin _].
  pose proof (drop_matched_shorter m remaining Hin) as Hshort.
  rewrite drop_matched_without_value in Hshort. lia.
Qed.

(** The reads merged along a run are pairwise different and are among the
    remaining candidates of its first state. *)
Lemma assembles_merged (sequence : Sequence) (others : list Sequence)
      (states : list (Sequence * list Sequence)) (r : result Sequence) :
  assembles sequence others states r ->
  NoDup (flat_map merged_read states) /\
  forall read, In read (flat_map merged_read states) -> In read others.
Proof.
  assert (Hone : forall current remaining m,
             find_best_match current remaining = Ok m ->
             merged_read (current, remaining) = [m_matched m]).
  { intros current remaining m Hm. unfold merged_read. cbn [fst snd].
    now rewrite Hm. }
  induction 1 as [current remaining m Hlen Hm
                 |current remaining e He
                 |current remaining m states r Hlen Hm Hrun [IHnd IHin]];
    cbn [flat_map].
  - rewrite (Hone _ _ _ Hm). cbn [app].
    apply find_best_match_matched in Hm.
    split; [apply NoDup_cons; [intros []|apply NoDup_nil]|].
    intros read [<-|[]]. tauto.
  - unfold merged_read. cbn [fst snd]. rewrite He. cbn [app].
    split; [constructor|intros read []].
  - rewrite (Hone _ _ _ Hm). cbn [app].
    apply find_best_match_matched in Hm.
    destruct Hm as [Hin _]. unfold without_value in IHin. split.
    + constructor; [|exact IHnd]. intros Hmerged.
      apply IHin in Hmerged. now apply remove_In in Hmerged.
    + intros read [<-|Hread]; [exact Hin|].
      apply IHin, in_remove in Hread. tauto.
Qed.

(** Two states that follow each other in a run are linked by one merge
    and the removal of every candidate equal by value to the matched
    sequence. *)
Lemma assembles_next (sequence : Sequence) (others : list Sequence)
      (states : list (Sequence * list Sequence)) (r : result Sequence) :
  assembles sequence others states r ->
  forall (i : nat) (current current' : Sequence)
         (remaining remaining' : list Sequence),
    nth_error states i = Some (current, remaining) ->
    nth_error states (S i) = Some (current', remaining') ->
    exists best_match,
      Py.len remaining <> 1 /\
      find_best_match current remaining = Ok best_match /\
      current' = consensus_of best_match /\
      remaining' = without_value (m_matched best_match) remaining.
Proof.
  induction 1 as [current0 remaining0 m Hone Hm
                 |current0 remaining0 e He
                 |current0 remaining0 m states r Hlen Hm Hrun IH];
    intros i current current' remaining remaining' Hi Hnext.
  - destruct i; discriminate.
  - destruct i; discriminate.
  - destruct i as [|i]; cbn [nth_error] in Hi, Hnext.
    + injection Hi as <- <-. exists m.
      split; [unfold Py.len; lia|]. split; [exact Hm|].
      inversion Hrun; subst; cbn [nth_error] in Hnext;
        injection Hnext as <- <-; auto.
    + exact (IH _ _ _ _ _ Hi Hnext).
Qed.

(** C7: within any recursion limit, [assemble] returns or raises what the
    reduction gives whose every step goes on with the old remaining
    candidates from which every element equal by value to the matched
    sequence is removed, the others keeping their order; its calls are the
    states of that reduction. So at every step of [assemble] that recurses
    the new list of others is the old one without any element equal to the
    matched sequence, and no read is merged twice. *)
Theorem assemble_removes_every_equal
        (limit : nat) (sequence : Sequence) (others : list Sequence) :
  (forall r,
     assemble_fuel limit sequence others = Some r <->
     exists states,
       assembles sequence others states r /\
       (length states <= S limit)%nat) /\
  (forall states r,
     assembles sequence others states r ->
     assemble_calls (length others) sequence others = states /\
     NoDup (flat_map merged_read states) /\
     forall (i : nat) (current current' : Sequence)
            (remaining remaining' : list Sequence),
       nth_error states i = Some (current, remaining) ->
       nth_error states (S i) = Some (current', remaining') ->
       exists best_match,
         Py.len remaining <> 1 /\
         find_best_match current remaining = Ok best_match /\
         current' = consensus_of best_match /\
         remaining' = without_value (m_matched best_match) remaining /\
         remaining' = drop_matched best_match remaining /\
         ~ In (m_matched best_match) remaining' /\
         forall y, y <> m_matched best_match ->
                   count_occ (list_eq_dec ascii_dec) remaining' y
                   = count_occ (list_eq_dec ascii_dec) remaining y).
Proof.
  split.
  - intros r. split.
    + apply assemble_fuel_assembles.
    + intros (states & Hrun & Hlen).
      now apply (assembles_fuel _ _ _ _ Hrun limit).
  - intros states r Hrun. split; [|split].
    + apply (assembles_fuel _ _ _ _ Hrun (length others)).
      pose proof (assembles_length _ _ _ _ Hrun). lia.
    + apply (assembles_merged _ _ _ _ Hrun).
    + intros i current current' remaining remaining' Hi Hnext.
      destruct (assembles_next _ _ _ _ Hrun _ _ _ _ _ Hi Hnext)
        as (m & Hlen & Hm & -> & ->).
      exists m. split; [exact Hlen|]. split; [exact Hm|].
      split; [reflexivity|]. split; [reflexivity|].
      split; [now rewrite drop_matched_without_value|]. split.
      * unfold without_value. apply remove_In.
      * intros y Hy. now apply without_value_count_other.
Qed.

Lemma assemble_removes_every_equal_witness :
  exists states,
    assembles (dna "ATCGT") [dna "CGTAC"; dna "TACGG"; dna "CGTAC"] states
              (Ok (dna "TACGGAC")) /\
    (length states <= 4)%nat.
Proof.
  apply (proj1 (assemble_removes_every_equal
                  3 (dna "ATCGT") [dna "CGTAC"; dna "TACGG"; dna "CGTAC"])
               (Ok (dna "TACGGAC"))).
  reflexivity.
Defined.

(** Two equal reads leave together: after the merge of ["CGTAC"] the run
    goes on with ["TACGG"] alone. *)
Example assemble_removes_both :
  assemble_calls 3 (dna "ATCGT") [dna "CGTAC"; dna "TACGG"; dna "CGTAC"]
  = [(dna "ATCGT", [dna "CGTAC"; dna "TACGG"; dna "CGTAC"]);
     (dna "ATCGTAC", [dna "TACGG"])].
Proof. reflexivity. Qed.

(** *** Runs of distinct pools *)

(** One merge under the conditions of a distinct pool. *)
Lemma merge_step (sequence : Sequence) (others : list Sequence) :
  others <> [] ->
  Forall (fun read => 2 <= Py.len sequence + Py.len read) others ->
  ~ In sequence others ->
  exists m, find_best_match sequence others = Ok m /\
            In (m_matched m) others /\
            Py.len sequence <= Py.len (consensus_of m).
Proof.
  intros Hothers Hlen Hapart. rewrite Forall_forall in Hlen.
  destruct (find_best_match_returns sequence others) as [m Hm].
  - destruct others as [|c others]; [congruence|].
    exists c. split; [now left|]. intros ->. apply Hapart. now left.
  - intros c Hc _. now apply Hlen.
  - exists m. split; [exact Hm|].
    apply find_best_match_matched in Hm.
    destruct Hm as (Hin & _ & Hbase & _ & Hr). split; [exact Hin|].
    unfold consensus_of. rewrite Hbase.
    apply (consensus_length_ge (m_score m) (m_offset m) (m_matched m)
                               sequence Hr).
Qed.

Lemma assemble_distinct_run (n : nat) :
  forall (sequence : Sequence) (others : list Sequence),
    length others = S n ->
    Forall (fun read => 2 <= Py.len sequence + Py.len read) others ->
    NoDup others ->
    Forall apart (assemble_calls (length others) sequence others) ->
    exists states final,
      assembles sequence others states (Ok final) /\
      map (fun call => length (snd call)) states = rev (seq 1 (S n)) /\
      Forall (fun call => exists m,
                  find_best_match (fst call) (snd call) = Ok m /\
                  In (m_matched m) (snd call))
             states /\
      Permutation (flat_map merged_read states) others.
Proof.
  induction n as [|n IH]; intros sequence others Hlen Hsum Hnd Hap;
    rewrite assemble_calls_eq in Hap;
    pose proof (Forall_inv Hap) as Hap0; apply Forall_inv_tail in Hap;
    destruct (merge_step sequence others) as (m & Hm & Hin & Hcons); auto;
    try (intros ->; discriminate Hlen).
  - exists [(sequence, others)], (consensus_of m).
    split; [now apply assembles_done|]. cbn [map snd]. rewrite Hlen.
    split; [reflexivity|]. split.
    + constructor; [|constructor]. exists m. auto.
    + cbn [flat_map]. unfold merged_read. cbn [fst snd]. rewrite Hm.
      destruct others as [|c [|c' others]]; try discriminate Hlen.
      destruct Hin as [<-|[]]. reflexivity.
  - replace (Py.len others =? 1) with false in Hap
      by (symmetry; apply Z.eqb_neq; unfold Py.len; lia).
    rewrite Hm, Hlen in Hap.
    pose proof (drop_matched_perm m others Hnd Hin) as Hperm.
    assert (Hshort : length (drop_matched m others) = S n).
    { apply Permutation_length in Hperm. cbn [length] in Hperm. lia. }
    destruct (IH (consensus_of m) (drop_matched m others))
      as (states & final & Hrun & Hlens & Hmerges & Hreads).
    + exact Hshort.
    + apply Forall_forall. intros read Hread. apply drop_matched_in in Hread.
      rewrite Forall_forall in Hsum. specialize (Hsum read (proj1 Hread)). lia.
    + unfold drop_matched. now apply NoDup_filter.
    + now rewrite Hshort.
    + exists ((sequence, others) :: states), final. split; [|split; [|split]].
      * apply assembles_step with (m := m); [lia|exact Hm|].
        now rewrite <- drop_matched_without_value.
      * cbn [map snd]. rewrite Hlens, Hlen.
        rewrite (seq_S (S n) 1), rev_unit. reflexivity.
      * constructor; [|exact Hmerges]. exists m. auto.
      * cbn [flat_map]. unfold merged_read at 1. cbn [fst snd]. rewrite Hm.
        cbn [app].
        exact (Permutation_trans (perm_skip _ Hreads) Hperm).
Qed.

(** C6, as the code has it: take a pool of two or more reads that are
    pairwise distinct, in which the length of the first read and the length
    of each other read add up to 2 or more, and such that in no call of
    [assemble] the sequence equals one of the others. Its run is a run of
    the reduction with exactly [len(pool) - 1] states, one merge in each;
    the list of others is one read shorter from a state to the next, and the
    merged reads are the reads after the first, each exactly once. When the
    recursion limit leaves room for [len(pool) - 2] nested calls,
    [assemble_helper] returns the sequence of that run; with less room it
    ends in [RecursionError]. *)
Theorem assemble_distinct_pool
        (limit : nat) (first : Sequence) (rest : list Sequence) :
  rest <> [] ->
  NoDup (first :: rest) ->
  Forall (fun read => 2 <= Py.len first + Py.len read) rest ->
  Forall apart (assemble_calls (length rest) first rest) ->
  exists states final,
    assembles first rest states (Ok final) /\
    assemble_calls (length rest) first rest = states /\
    length states = (length (first :: rest) - 1)%nat /\
    map (fun call => length (snd call)) states = rev (seq 1 (length rest)) /\
    Forall (fun call => exists m,
                find_best_match (fst call) (snd call) = Ok m /\
                In (m_matched m) (snd call))
           states /\
    Permutation (flat_map merged_read states) rest /\
    ((length rest <= S limit)%nat ->
     assemble_helper_within limit (first :: rest) = Returned final) /\
    ((S limit < length rest)%nat ->
     assemble_helper_within limit (first :: rest) = RecursionError).
Proof.
  intros Hrest Hnd Hsum Hap.
  inversion Hnd as [|? ? _ Hnd']; subst.
  destruct (length rest) as [|n] eqn:Hlen.
  { destruct rest; [congruence|discriminate]. }
  destruct (assemble_distinct_run n first rest)
    as (states & final & Hrun & Hlens & Hmerges & Hreads); auto.
  { now rewrite Hlen. }
  assert (Hstates : length states = S n).
  { apply (f_equal (@length nat)) in Hlens.
    now rewrite length_map, length_rev, length_seq in Hlens. }
  exists states, final. split; [exact Hrun|].
  destruct (proj1 (assembles_fuel _ _ _ _ Hrun (S n))) as [Hsome Hcalls];
    [lia|].
  split; [exact Hcalls|]. split; [cbn [length]; lia|].
  split; [exact Hlens|]. split; [exact Hmerges|]. split; [exact Hreads|].
  unfold assemble_helper_within, assemble_within.
  rewrite index_first, slice_rest. split.
  - intros Hroom.
    destruct (proj1 (assembles_fuel _ _ _ _ Hrun limit)) as [-> _]; [lia|].
    reflexivity.
  - intros Hroom.
    rewrite (proj2 (assembles_fuel _ _ _ _ Hrun limit)) by lia.
    reflexivity.
Qed.

Lemma assemble_distinct_pool_witness :
  exists states final,
    assembles (dna "AB") [dna ""; dna "CD"] states (Ok final) /\
    assemble_calls 2 (dna "AB") [dna ""; dna "CD"] = states /\
    length states = 2%nat /\
    map (fun call => length (snd call)) states = [2%nat; 1%nat] /\
    Forall (fun call => exists m,
                find_best_match (fst call) (snd call) = Ok m /\
                In (m_matched m) (snd call))
           states /\
    Permutation (flat_map merged_read states) [dna ""; dna "CD"] /\
    ((2 <= 6)%nat ->
     assemble_helper_within 5 [dna "AB"; dna ""; dna "CD"] = Returned final) /\
    ((6 < 2)%nat ->
     assemble_helper_within 5 [dna "AB"; dna ""; dna "CD"] = RecursionError).
Proof.
  apply (assemble_distinct_pool 5 (dna "AB") [dna ""; dna "CD"]).
  - discriminate.
  - repeat constructor; simpl; intuition discriminate.
  - repeat constructor; vm_compute; discriminate.
  - vm_compute. repeat constructor; intros H; simpl in H; intuition discriminate.
Defined.

(** The same pool under a recursion limit with no room for a nested
    call. *)
Example assemble_recursion_limit :
  assemble_helper_within 0 [dna "AB"; dna ""; dna "CD"] = RecursionError /\
  assemble_helper_within 1 [dna "AB"; dna ""; dna "CD"] = Returned (dna "ACD").
Proof. split; reflexivity. Qed.

(** The pool of the specification's example, run to its end. *)
Example assemble_three_reads :
  assemble_helper [dna "ATCGT"; dna "CGTAC"; dna "TACGG"]
  = Some (Ok (dna "TACGGAC")) /\
  assemble_calls 2 (dna "ATCGT") [dna "CGTAC"; dna "TACGG"]
  = [(dna "ATCGT", [dna "CGTAC"; dna "TACGG"]); (dna "ATCGTAC", [dna "TACGG"])].
Proof. split; reflexivity. Qed.

(** C6 fails as stated: the pool of the empty read and ["A"] has two
    distinct reads and its only call of [assemble] has a sequence that is
    none of the others, but the run raises [ValueError]. *)
Lemma assemble_distinct_pool_counterexample :
  [dna "A"] <> [] /\
  NoDup [dna ""; dna "A"] /\
  Forall apart (assemble_calls 1 (dna "") [dna "A"]) /\
  assemble_helper [dna ""; dna "A"] = Some (Raise ValueError) /\
  ~ (forall (first : Sequence) (rest : list Sequence),
       rest <> [] -> NoDup (first :: rest) ->
       Forall apart (assemble_calls (length rest) first rest) ->
       exists final, assemble_helper (first :: rest) = Some (Ok final)).
Proof.
  assert (Hnd : NoDup [dna ""; dna "A"]).
  { repeat constructor; simpl; intuition discriminate. }
  assert (Hap : Forall apart (assemble_calls 1 (dna "") [dna "A"])).
  { vm_compute. repeat constructor; intros H; simpl in H; intuition discriminate. }
  split; [discriminate|]. split; [exact Hnd|]. split; [exact Hap|].
  split; [reflexivity|].
  intros H. destruct (H (dna "") [dna "A"]) as [final Hfinal]; auto.
  - discriminate.
  - vm_compute in Hfinal. discriminate.
Qed.

(** Two reads equal by value leave the list of others together: the pool
    below merges once and then has no read left to merge. *)
Example assemble_duplicate_reads :
  drop_matched (3, 2, dna "CGTAC", dna "ATCGT") [dna "CGTAC"; dna "CGTAC"] = [] /\
  assemble_helper [dna "ATCGT"; dna "CGTAC"; dna "CGTAC"]
  = Some (Raise ValueError).
Proof. split; reflexivity. Qed.


(** * Further properties of the assembler *)

(** ** Scores *)

(** X1: What [score] counts, at every offset: the positions [p] of
    [sequence2] such that [p + offset] is a position of [sequence1], the two
    characters are equal, and moreover [p + offset < len(sequence2)]. At an
    offset that is not positive the last condition always holds. *)
Theorem score_counted_positions (sequence1 sequence2 : Sequence) (offset : Z) :
  score sequence1 sequence2 offset =
  Ok (Py.len (filter (fun p => overlap_hit sequence1 sequence2 offset p
                               && (p + offset <? Py.len sequence2))
                     (Py.range 0 (Py.len sequence2)))) /\
  (offset <= 0 ->
   score sequence1 sequence2 offset
   = Ok (overlap_count sequence1 sequence2 offset)).
Proof.
  split; [apply score_counts|apply score_overlap_count_nonpositive].
Qed.

Lemma score_counted_positions_witness :
  score (dna "ATCGT") (dna "TACGG") (-1)
  = Ok (overlap_count (dna "ATCGT") (dna "TACGG") (-1)).
Proof.
  apply (proj2 (score_counted_positions (dna "ATCGT") (dna "TACGG") (-1))).
  vm_compute. discriminate.
Defined.

Lemma hit_self (s : Sequence) (p : Z) :
  0 <= p < Py.len s -> hit s s 0 p = true.
Proof.
  intros H. unfold hit. rewrite Z.add_0_r.
  destruct (nth_error s (Z.to_nat p)) as [a|] eqn:E.
  - apply Ascii.eqb_refl.
  - apply nth_error_None in E. unfold Py.len in H. lia.
Qed.

Lemma score_self_value (s : Sequence) :
  count_hits s s 0 (score_range s s 0) = Py.len s.
Proof.
  unfold count_hits. rewrite forallb_filter_id.
  - unfold score_range. rewrite range_length. pose proof (len_nonneg s). lia.
  - apply forallb_forall. intros p Hp. apply score_range_in in Hp.
    apply hit_self. lia.
Qed.

(** The number of positions that [score] visits at an offset other than 0
    between two sequences of the same length is below that length. *)
Lemma score_range_short (s1 s2 : Sequence) (offset : Z) :
  Py.len s1 = Py.len s2 -> offset <> 0 -> s1 <> [] ->
  count_hits s1 s2 offset (score_range s1 s2 offset) < Py.len s1.
Proof.
  intros Hlen Hoff Hne. apply len_pos in Hne.
  pose proof (count_hits_bounds s1 s2 offset (score_range s1 s2 offset)) as H.
  set (c := count_hits s1 s2 offset (score_range s1 s2 offset)) in *.
  unfold score_range in H. rewrite range_length in H. lia.
Qed.

(** X2: A sequence aligned with itself scores its length at offset 0, and for
    a non-empty sequence that is the match [find_best_offset] returns. *)
Theorem find_best_offset_self (sequence : Sequence) :
  score sequence sequence 0 = Ok (Py.len sequence) /\
  (sequence <> [] ->
   find_best_offset sequence sequence
   = Ok (Py.len sequence, 0, sequence, sequence)).
Proof.
  split.
  - rewrite score_value. now rewrite score_self_value.
  - intros Hne.
    destruct (find_best_offset_returns sequence sequence)
      as (offset & Hm & Hr & Hup).
    { apply len_pos in Hne. lia. }
    rewrite Hm. f_equal.
    destruct (Z.eq_dec offset 0) as [->|Hoff].
    + unfold offset_item. now rewrite score_self_value.
    + exfalso. assert (H0 : 1 - Py.len sequence <= 0 <= Py.len sequence - 1).
      { apply len_pos in Hne. lia. }
      specialize (Hup 0 H0). unfold offset_item in Hup.
      rewrite score_self_value in Hup. apply tuple_le_inv in Hup.
      pose proof (score_range_short sequence sequence offset eq_refl Hoff Hne).
      lia.
Qed.

Lemma find_best_offset_self_witness :
  find_best_offset (dna "ATCGT") (dna "ATCGT")
  = Ok (Py.len (dna "ATCGT"), 0, dna "ATCGT", dna "ATCGT").
Proof. apply (proj2 (find_best_offset_self (dna "ATCGT"))). discriminate. Defined.

(** X3: [find_best_offset] raises exactly when the two lengths add up to at
    most 1, and then it raises [ValueError]; otherwise the match it returns
    carries the two sequences, an offset of the scanned range and the score
    at that offset. *)
Theorem find_best_offset_outcome (sequence1 sequence2 : Sequence) :
  (Py.len sequence1 + Py.len sequence2 <= 1 /\
   find_best_offset sequence1 sequence2 = Raise ValueError) \/
  (2 <= Py.len sequence1 + Py.len sequence2 /\
   exists s offset,
     find_best_offset sequence1 sequence2 = Ok (s, offset, sequence2, sequence1) /\
     1 - Py.len sequence2 <= offset <= Py.len sequence1 - 1 /\
     score sequence1 sequence2 offset = Ok s /\
     0 <= s <= Z.min (Py.len sequence1) (Py.len sequence2)).
Proof.
  destruct (Z_le_gt_dec (Py.len sequence1 + Py.len sequence2) 1) as [Hle|Hgt].
  - left. split; [exact Hle|]. now apply find_best_offset_raises.
  - right. split; [lia|].
    destruct (find_best_offset_returns sequence1 sequence2)
      as (offset & Hm & Hr & _); [lia|].
    eexists _, offset. split; [exact Hm|]. split; [exact Hr|].
    split; [apply score_value|apply score_range_hits_bounds].
Qed.

(** ** Matches *)

(** X4: A match returned by [find_best_match] has the given sequence as its
    base and one of the others, different from that sequence, as its
    matched sequence; its offset lies in the scanned range and its score is
    the score at that offset, between 0 and the shorter of the two
    lengths. *)
Theorem find_best_match_invariants
        (sequence : Sequence) (others : list Sequence) (m : Match) :
  find_best_match sequence others = Ok m ->
  m_base m = sequence /\
  In (m_matched m) others /\ m_matched m <> sequence /\
  1 - Py.len (m_matched m) <= m_offset m <= Py.len sequence - 1 /\
  score sequence (m_matched m) (m_offset m) = Ok (m_score m) /\
  0 <= m_score m <= Z.min (Py.len sequence) (Py.len (m_matched m)).
Proof.
  intros H. apply find_best_match_ok_inv in H.
  destruct H as [(c & Hc & Hne & Hm) _].
  destruct (find_best_offset_ok_inv _ _ _ Hm) as (Hlen & _).
  destruct (find_best_offset_returns sequence c Hlen) as (offset & Hok & Hr & _).
  rewrite Hm in Hok. injection Hok as ->.
  unfold offset_item, m_base, m_matched, m_offset, m_score. cbn [fst snd].
  pose proof (score_range_hits_bounds sequence c offset).
  pose proof (score_value sequence c offset). auto 10.
Qed.

Lemma find_best_match_invariants_witness :
  m_base (3, 2, dna "CGTAC", dna "ATCGT") = dna "ATCGT" /\
  In (m_matched (3, 2, dna "CGTAC", dna "ATCGT")) [dna "CGTAC"; dna "TACGG"] /\
  m_matched (3, 2, dna "CGTAC", dna "ATCGT") <> dna "ATCGT" /\
  1 - Py.len (m_matched (3, 2, dna "CGTAC", dna "ATCGT"))
    <= m_offset (3, 2, dna "CGTAC", dna "ATCGT") <= Py.len (dna "ATCGT") - 1 /\
  score (dna "ATCGT") (m_matched (3, 2, dna "CGTAC", dna "ATCGT"))
        (m_offset (3, 2, dna "CGTAC", dna "ATCGT"))
  = Ok (m_score (3, 2, dna "CGTAC", dna "ATCGT")) /\
  0 <= m_score (3, 2, dna "CGTAC", dna "ATCGT")
    <= Z.min (Py.len (dna "ATCGT"))
             (Py.len (m_matched (3, 2, dna "CGTAC", dna "ATCGT"))).
Proof.
  apply (find_best_match_invariants (dna "ATCGT") [dna "CGTAC"; dna "TACGG"]).
  reflexivity.
Defined.

Lemma find_best_match_ok_iff (sequence : Sequence) (others : list Sequence)
      (m : Match) :
  find_best_match sequence others = Ok m <->
  (exists c, In c others /\ c <> sequence /\ find_best_offset sequence c = Ok m) /\
  (forall c, In c others -> c <> sequence ->
             exists m', find_best_offset sequence c = Ok m' /\
                        cmp_le tuple_compare m' m).
Proof.
  split.
  - intros H. destruct (find_best_match_ok_inv _ _ _ H) as [Hex Hup].
    split; [exact Hex|]. intros c Hc Hne.
    destruct (find_best_match_ok_all _ _ _ H c Hc Hne) as [m' Hm'].
    exists m'. split; [exact Hm'|]. now apply (Hup c).
  - intros [(c & Hc & Hne & Hm) Hall].
    destruct (find_best_match_returns sequence others) as [m0 Hm0].
    + exists c. auto.
    + intros c' Hc' Hne'. destruct (Hall c' Hc' Hne') as (m' & Hm' & _).
      now apply find_best_offset_ok_inv in Hm'.
    + rewrite Hm0. f_equal.
      destruct (find_best_match_ok_inv _ _ _ Hm0) as [(c0 & Hc0 & Hne0 & Hcm0) Hup0].
      apply (cmp_le_antisym tuple_compare).
      * destruct (Hall c0 Hc0 Hne0) as (m' & Hm' & Hle). congruence.
      * now apply (Hup0 c).
Qed.

(** X5: The outcome of [find_best_match] does not depend on the order of the
    others: any rearrangement of the list gives the same match, or the same
    exception. *)
Theorem find_best_match_order_independent
        (sequence : Sequence) (others others' : list Sequence) :
  Permutation others others' ->
  find_best_match sequence others = find_best_match sequence others'.
Proof.
  intros Hperm.
  assert (Hin : forall c, In c others <-> In c others').
  { intros c. split; apply Permutation_in; [exact Hperm|now symmetry]. }
  assert (Hiff : forall m, find_best_match sequence others = Ok m <->
                           find_best_match sequence others' = Ok m).
  { intros m. rewrite !find_best_match_ok_iff. split.
    - intros [(c & Hc & H) Hall]. split.
      + exists c. rewrite <- Hin. auto.
      + intros c' Hc'. apply Hall. now apply Hin.
    - intros [(c & Hc & H) Hall]. split.
      + exists c. rewrite Hin. auto.
      + intros c' Hc'. apply Hall. now apply Hin. }
  destruct (find_best_match sequence others) as [m|e] eqn:E;
    destruct (find_best_match sequence others') as [m'|e'] eqn:E'.
  - symmetry. now apply Hiff.
  - pose proof (proj1 (Hiff m) eq_refl). discriminate.
  - pose proof (proj2 (Hiff m') eq_refl). discriminate.
  - apply find_best_match_raise_inv in E, E'. congruence.
Qed.

Lemma find_best_match_order_independent_witness :
  find_best_match (dna "ATCGT") [dna "CGTAC"; dna "TACGG"]
  = find_best_match (dna "ATCGT") [dna "TACGG"; dna "CGTAC"].
Proof.
  apply (find_best_match_order_independent (dna "ATCGT")
           [dna "CGTAC"; dna "TACGG"] [dna "TACGG"; dna "CGTAC"]).
  apply perm_swap.
Defined.

(** ** Merges *)

Lemma slice_between {A : Type} (s : list A) (a b : Z) :
  0 <= a <= b ->
  Py.slice s (Some a) (Some b)
  = firstn (Z.to_nat b - Z.to_nat a) (skipn (Z.to_nat a) s).
Proof.
  intros H. unfold Py.slice. cbv zeta. rewrite !clip_nonneg by lia.
  pose proof (len_nonneg s) as Hn. unfold Py.len in *.
  destruct (Z_le_gt_dec (Z.of_nat (length s)) a) as [Hle|Hgt].
  - rewrite !skipn_all2 by lia. now rewrite !firstn_nil.
  - replace (Z.to_nat (Z.max 0 (Z.min (Z.of_nat (length s)) a)))
      with (Z.to_nat a) by lia.
    destruct (Z_le_gt_dec b (Z.of_nat (length s))) as [Hb|Hb].
    + f_equal. lia.
    + rewrite !firstn_all2; [reflexivity| |]; rewrite length_skipn; lia.
Qed.

Lemma slice_from {A : Type} (s : list A) (a : Z) :
  0 <= a -> Py.slice s (Some a) None = skipn (Z.to_nat a) s.
Proof.
  intros H. unfold Py.slice. cbv zeta. rewrite clip_nonneg by lia.
  pose proof (len_nonneg s) as Hn. unfold Py.len in *.
  destruct (Z_le_gt_dec (Z.of_nat (length s)) a) as [Hle|Hgt].
  - rewrite !skipn_all2 by lia. now rewrite firstn_nil.
  - replace (Z.to_nat (Z.max 0 (Z.min (Z.of_nat (length s)) a)))
      with (Z.to_nat a) by lia.
    apply firstn_all2. rewrite length_skipn. lia.
Qed.

(** X6: Merging a read into a base that already contains it at the given
    offset gives the base back. *)
Theorem consensus_contained (s offset : Z) (sequence1 sequence2 : Sequence) :
  0 <= offset ->
  Py.slice sequence2 (Some offset) (Some (offset + Py.len sequence1))
  = sequence1 ->
  consensus s offset sequence1 sequence2 = sequence2.
Proof.
  intros Hoff Hsub. unfold consensus. pose proof (len_nonneg sequence1) as Hn.
  rewrite slice_between, slice_from by lia.
  rewrite slice_between in Hsub by lia.
  rewrite <- Hsub at 1.
  replace (Z.to_nat (Z.max 0 offset) - Z.to_nat 0)%nat with (Z.to_nat offset) by lia.
  change (Z.to_nat 0) with 0%nat. cbn [skipn].
  replace (Z.to_nat (Py.len sequence1 + offset))
    with ((Z.to_nat (offset + Py.len sequence1) - Z.to_nat offset)
          + Z.to_nat offset)%nat by lia.
  rewrite <- skipn_skipn, firstn_skipn. apply firstn_skipn.
Qed.

Lemma consensus_contained_witness :
  consensus 3 2 (dna "CGT") (dna "ATCGTAC") = dna "ATCGTAC".
Proof.
  apply (consensus_contained 3 2 (dna "CGT") (dna "ATCGTAC")).
  - discriminate.
  - reflexivity.
Defined.

(** X7: At an offset of the scanned range the merge is at least as long as
    each of the two sequences and at most as long as both together. *)
Theorem consensus_length_bounds (s offset : Z) (sequence1 sequence2 : Sequence) :
  1 - Py.len sequence1 <= offset <= Py.len sequence2 - 1 ->
  Z.max (Py.len sequence1) (Py.len sequence2)
  <= Py.len (consensus s offset sequence1 sequence2)
  <= Py.len sequence1 + Py.len sequence2.
Proof.
  intros H. rewrite consensus_length_nonneg_start by lia.
  pose proof (len_nonneg sequence1). pose proof (len_nonneg sequence2). lia.
Qed.

Lemma consensus_length_bounds_witness :
  Z.max (Py.len (dna "CGTAC")) (Py.len (dna "ATCGT"))
  <= Py.len (consensus 3 2 (dna "CGTAC") (dna "ATCGT"))
  <= Py.len (dna "CGTAC") + Py.len (dna "ATCGT").
Proof.
  apply (consensus_length_bounds 3 2 (dna "CGTAC") (dna "ATCGT")).
  vm_compute. split; discriminate.
Defined.

(** ** Runs of [assemble] *)

(** X8: [assemble] ends on every input: each nested call has fewer others than
    the call before, so [len(others)] nested calls are enough and any
    larger count gives the same outcome. *)
Theorem assemble_terminates (fuel : nat) (sequence : Sequence)
        (others : list Sequence) :
  (length others <= fuel)%nat ->
  exists r, assemble sequence others = Some r /\
            assemble_fuel fuel sequence others = Some r.
Proof.
  intros H. destruct (assemble_total sequence others) as [r Hr].
  exists r. split; [exact Hr|].
  exact (assemble_fuel_more _ _ _ _ _ H Hr).
Qed.

Lemma assemble_terminates_witness :
  exists r, assemble (dna "ATCGT") [dna "CGTAC"; dna "TACGG"] = Some r /\
            assemble_fuel 7 (dna "ATCGT") [dna "CGTAC"; dna "TACGG"] = Some r.
Proof.
  apply (assemble_terminates 7 (dna "ATCGT") [dna "CGTAC"; dna "TACGG"]).
  simpl. lia.
Defined.

Lemma assemble_fuel_raise_inv (fuel : nat) (sequence : Sequence)
      (others : list Sequence) (e : exn) :
  assemble_fuel fuel sequence others = Some (Raise e) -> e = ValueError.
Proof.
  revert sequence others. induction fuel as [|fuel IH]; intros sequence others;
    rewrite assemble_fuel_eq;
    destruct (Py.len others =? 1);
    destruct (find_best_match sequence others) as [m|e'] eqn:E; simpl;
    try discriminate;
    try (intros [= <-]; now apply find_best_match_raise_inv in E).
  apply IH.
Qed.

Lemma assemble_fuel_room (fuel : nat) (sequence : Sequence)
      (others : list Sequence) :
  (length others <= S fuel)%nat ->
  exists r, assemble_fuel fuel sequence others = Some r.
Proof.
  intros Hroom. destruct (assemble_total sequence others) as [r Hr].
  destruct (assemble_fuel_assembles _ _ _ _ Hr) as (states & Hrun & _).
  exists r. apply (assembles_fuel _ _ _ _ Hrun fuel).
  pose proof (assembles_length _ _ _ _ Hrun). lia.
Qed.

(** X9: The exceptions of [assemble_helper] under a recursion limit that
    leaves room for [limit] nested calls of [assemble]: [IndexError] for
    the empty pool and only for it, [RecursionError] only for a pool of
    more than [limit + 2] reads, and [ValueError] in every other case. *)
Theorem assemble_helper_exceptions (limit : nat) (reads : list Sequence) :
  (forall e, assemble_helper_within limit reads = Raised e ->
     (reads = [] /\ e = IndexError) \/ (reads <> [] /\ e = ValueError)) /\
  (assemble_helper_within limit reads = RecursionError ->
   (S (S limit) < length reads)%nat).
Proof.
  destruct reads as [|first rest].
  - split; [|discriminate]. intros e [= <-]. now left.
  - unfold assemble_helper_within, assemble_within.
    rewrite index_first, slice_rest. split.
    + intros e H. right. split; [discriminate|].
      destruct (assemble_fuel limit first rest) as [[s|e']|] eqn:E;
        try discriminate.
      injection H as <-. now apply assemble_fuel_raise_inv in E.
    + intros H. cbn [length].
      destruct (le_lt_dec (length rest) (S limit)) as [Hroom|Hlt]; [|lia].
      destruct (assemble_fuel_room limit first rest Hroom) as [r Hr].
      rewrite Hr in H. destruct r; discriminate.
Qed.

Lemma assemble_helper_exceptions_witness :
  (([dna "ATCGT"; dna "ATCGT"] = [] /\ ValueError = IndexError) \/
   ([dna "ATCGT"; dna "ATCGT"] <> [] /\ ValueError = ValueError)) /\
  (2 < length [dna "ATCGT"; dna "CGTAC"; dna "TACGG"])%nat.
Proof.
  split.
  - apply (proj1 (assemble_helper_exceptions 0 [dna "ATCGT"; dna "ATCGT"])).
    reflexivity.
  - apply (proj2 (assemble_helper_exceptions
                    0 [dna "ATCGT"; dna "CGTAC"; dna "TACGG"])).
    reflexivity.
Defined.

(** X10: A pool whose reads after the first are all equal by value raises
    [ValueError] when there are two or more of them, or when they equal
    the first read: the first merge removes them all and nothing is left
    to merge with. *)
Theorem assemble_helper_equal_others (first x : Sequence) (rest : list Sequence) :
  (forall c, In c rest -> c = x) ->
  (2 <= length rest)%nat \/ x = first ->
  assemble_helper (first :: rest) = Some (Raise ValueError).
Proof.
  intros Hall Hcase. unfold assemble_helper, assemble.
  rewrite index_first, slice_rest, assemble_fuel_eq.
  destruct (find_best_match first rest) as [m|e] eqn:E.
  - destruct Hcase as [Hlen | ->].
    + replace (Py.len rest =? 1) with false
        by (symmetry; apply Z.eqb_neq; unfold Py.len; lia).
      destruct (length rest) as [|n] eqn:Hn; [lia|].
      assert (Hdrop : drop_matched m rest = []).
      { apply find_best_match_matched in E. destruct E as [Hin _].
        apply Hall in Hin. unfold drop_matched. apply filter_none.
        intros c Hc. apply negb_false_iff, seq_eqb_eq.
        rewrite Hin. now apply Hall. }
      rewrite Hdrop, assemble_fuel_eq. reflexivity.
    + rewrite find_best_match_no_candidate in E by exact Hall. discriminate.
  - apply find_best_match_raise_inv in E. subst e.
    destruct (Py.len rest =? 1); reflexivity.
Qed.

Lemma assemble_helper_equal_others_witness :
  assemble_helper [dna "ATCGT"; dna "CGTAC"; dna "CGTAC"; dna "CGTAC"]
  = Some (Raise ValueError).
Proof.
  apply (assemble_helper_equal_others (dna "ATCGT") (dna "CGTAC")
           [dna "CGTAC"; dna "CGTAC"; dna "CGTAC"]).
  - intros c [<-|[<-|[<-|[]]]]; reflexivity.
  - left. simpl. lia.
Defined.

Lemma total_length_drop (m : Match) (others : list Sequence) :
  In (m_matched m) others ->
  total_length (drop_matched m others) + Py.len (m_matched m)
  <= total_length others.
Proof.
  unfold drop_matched, total_length. generalize (m_matched m). intros x.
  induction others as [|y others IH]; intros Hin; [destruct Hin|].
  cbn [filter]. destruct (seq_eqb y x) eqn:E; cbn [negb map fold_right].
  - apply seq_eqb_eq in E. subst y. clear Hin IH.
    assert (H : fold_right Z.add 0
                  (map (fun read => Py.len read)
                       (filter (fun y => negb (seq_eqb y x)) others))
                <= fold_right Z.add 0 (map (fun read => Py.len read) others)).
    { induction others as [|z others IH]; cbn [filter]; [reflexivity|].
      destruct (negb (seq_eqb z x)); cbn [map fold_right];
        pose proof (len_nonneg z); lia. }
    lia.
  - destruct Hin as [->|Hin].
    + apply seq_eqb_neq in E. congruence.
    + specialize (IH Hin). lia.
Qed.

Lemma assemble_fuel_length (fuel : nat) :
  forall (sequence : Sequence) (others : list Sequence) (final : Sequence),
    assemble_fuel fuel sequence others = Some (Ok final) ->
    Py.len sequence <= Py.len final /\
    (forall read, In read others -> Py.len read <= Py.len final) /\
    Py.len final <= Py.len sequence + total_length others.
Proof.
  assert (Hmerge : forall sequence others m,
             find_best_match sequence others = Ok m ->
             In (m_matched m) others /\
             Z.max (Py.len (m_matched m)) (Py.len sequence)
             <= Py.len (consensus_of m)
             <= Py.len (m_matched m) + Py.len sequence).
  { intros sequence others m Hm. apply find_best_match_matched in Hm.
    destruct Hm as (Hin & _ & Hbase & _ & Hr). split; [exact Hin|].
    unfold consensus_of. rewrite Hbase.
    rewrite consensus_length_nonneg_start by lia.
    pose proof (len_nonneg (m_matched m)). pose proof (len_nonneg sequence).
    lia. }
  induction fuel as [|fuel IH]; intros sequence others final;
    rewrite assemble_fuel_eq;
    destruct (Py.len others =? 1) eqn:Hone;
    destruct (find_best_match sequence others) as [m|e] eqn:E; simpl;
    try discriminate.
  - intros [= <-]. destruct (Hmerge _ _ _ E) as [Hin Hb].
    apply Z.eqb_eq in Hone. destruct others as [|c [|c' others]];
      try (unfold Py.len in Hone; simpl in Hone; lia).
    destruct Hin as [Hc|[]]. rewrite <- Hc in *.
    unfold total_length. cbn [map fold_right]. split; [lia|]. split; [|lia].
    intros read [<-|[]]. lia.
  - intros [= <-]. destruct (Hmerge _ _ _ E) as [Hin Hb].
    apply Z.eqb_eq in Hone. destruct others as [|c [|c' others]];
      try (unfold Py.len in Hone; simpl in Hone; lia).
    destruct Hin as [Hc|[]]. rewrite <- Hc in *.
    unfold total_length. cbn [map fold_right]. split; [lia|]. split; [|lia].
    intros read [<-|[]]. lia.
  - intros H. destruct (Hmerge _ _ _ E) as [Hin Hb].
    destruct (IH _ _ _ H) as (Hseed & Hreads & Htotal).
    pose proof (total_length_drop m others Hin). split; [lia|]. split; [|lia].
    intros read Hread.
    destruct (list_eq_dec ascii_dec read (m_matched m)) as [->|Hne]; [lia|].
    apply Hreads. apply drop_matched_in. auto.
Qed.

(** X11: A pool that assembles gives a sequence at least as long as its longest
    read and at most as long as all its reads together. *)
Theorem assemble_helper_length (reads : list Sequence) (final : Sequence) :
  assemble_helper reads = Some (Ok final) ->
  (forall read, In read reads -> Py.len read <= Py.len final) /\
  Py.len final <= total_length reads.
Proof.
  destruct reads as [|first rest]; [discriminate|].
  unfold assemble_helper, assemble. rewrite index_first, slice_rest.
  intros H. apply assemble_fuel_length in H.
  destruct H as (Hseed & Hreads & Htotal). split.
  - intros read [<-|Hin]; auto.
  - unfold total_length in *. cbn [map fold_right]. lia.
Qed.

Lemma assemble_helper_length_witness :
  (forall read, In read [dna "ATCGT"; dna "CGTAC"; dna "TACGG"] ->
                Py.len read <= Py.len (dna "TACGGAC")) /\
  Py.len (dna "TACGGAC") <= total_length [dna "ATCGT"; dna "CGTAC"; dna "TACGG"].
Proof.
  apply (assemble_helper_length [dna "ATCGT"; dna "CGTAC"; dna "TACGG"]
                                (dna "TACGGAC")).
  reflexivity.
Defined.


(** * Properties of the sequence tools *)

Import Tools.

(** ** Complements *)

Lemma complement_bases_symmetric (c d : ascii) :
  dict_get complement_bases c = Some d -> dict_get complement_bases d = Some c.
Proof.
  destruct c as [[] [] [] [] [] [] [] []]; vm_compute;
    (discriminate || (intros [= <-]; reflexivity)).
Qed.

Lemma complement_value_iff (s t : Sequence) :
  complement s = Value t <->
  Forall2 (fun a b => dict_get complement_bases a = Some b) s t.
Proof.
  revert t. induction s as [|a s IH]; intros t; cbn [complement].
  - split.
    + intros [= <-]. constructor.
    + intros H. inversion H. reflexivity.
  - destruct (dict_get complement_bases a) as [c|] eqn:Ea.
    + destruct (complement s) as [cs|e] eqn:Es.
      * split.
        -- intros [= <-]. constructor; [exact Ea|].
           exact (proj1 (IH cs) eq_refl).
        -- intros H. inversion H as [|? b ? t' Hab Hst]; subst; cbv beta in Hab.
           pose proof (proj2 (IH t') Hst) as H0. injection H0 as ->.
           rewrite Ea in Hab. injection Hab as ->. reflexivity.
      * split; [discriminate|].
        intros H. inversion H as [|? b ? t' Hab Hst]; subst; cbv beta in Hab.
        pose proof (proj2 (IH t') Hst). discriminate.
    + split; [discriminate|].
      intros H. inversion H as [|? b ? t' Hab Hst]; subst; cbv beta in Hab. congruence.
Qed.

Lemma Forall2_reverse {A B : Type} (R : A -> B -> Prop) (l : list A) (l' : list B) :
  Forall2 R l l' -> Forall2 R (rev l) (rev l').
Proof.
  induction 1 as [|a b l l' Hab _ IH]; simpl; [constructor|].
  apply Forall2_app; [exact IH|]. constructor; [exact Hab|constructor].
Qed.

Lemma complement_symmetric (s t : Sequence) :
  Forall2 (fun a b => dict_get complement_bases a = Some b) s t ->
  Forall2 (fun a b => dict_get complement_bases a = Some b) t s.
Proof.
  intros H. apply Forall2_flip in H. revert H. apply Forall2_impl.
  intros a b. apply complement_bases_symmetric.
Qed.

(** X12: [complement] and [reverse_complement] undo themselves: applied to
    their own result they give the given sequence back; the result has the
    length of the given sequence, and the reverse complement is the
    reversed complement. *)
Theorem complement_involutive (seq result : Sequence) :
  (complement seq = Value result ->
   complement result = Value seq /\ length result = length seq /\
   reverse_complement seq = Value (reverse_string result)) /\
  (reverse_complement seq = Value result ->
   reverse_complement result = Value seq /\ length result = length seq).
Proof.
  unfold reverse_complement, reverse_string. rewrite !complement_value_iff.
  split; intros H.
  - split; [now apply complement_symmetric|]. split.
    + symmetry. exact (Forall2_length H).
    + now apply Forall2_reverse.
  - split.
    + apply complement_symmetric. apply Forall2_reverse in H.
      now rewrite rev_involutive in H.
    + apply Forall2_length in H. rewrite length_rev in H. auto.
Qed.

Lemma complement_involutive_witness :
  reverse_complement (dna "nCGTT") = Value (dna "AACGn") /\
  length (dna "nCGTT") = length (dna "AACGn").
Proof.
  apply (proj2 (complement_involutive (dna "AACGn") (dna "nCGTT"))).
  reflexivity.
Defined.

(** X13: [complement] returns exactly for the sequences whose characters are
    all keys of [complement_bases]; otherwise it raises [KeyError] with
    the first character of the sequence that is not a key. *)
Theorem complement_outcome (seq : Sequence) :
  (Forall (fun c => dict_get complement_bases c <> None) seq /\
   exists result, complement seq = Value result) \/
  (exists before c after,
     seq = before ++ c :: after /\
     Forall (fun c => dict_get complement_bases c <> None) before /\
     dict_get complement_bases c = None /\
     complement seq = Raises (KeyError c)).
Proof.
  induction seq as [|a seq IH]; cbn [complement].
  - left. split; [constructor|eauto].
  - destruct (dict_get complement_bases a) as [c|] eqn:Ea.
    + destruct IH as [[Hall [result ->]]|(before & c' & after & -> & Hb & Hc & ->)].
      * left. split; [|eauto]. constructor; [congruence|exact Hall].
      * right. exists (a :: before), c', after. repeat split; auto.
        constructor; [congruence|exact Hb].
    + right. exists [], a, seq. repeat split; auto.
Qed.

(** ** Counts *)

Lemma str_count_letter (dna : Sequence) (letter : ascii) :
  str_count dna [letter] = Z.of_nat (count_occ ascii_dec dna letter).
Proof.
  unfold str_count. induction dna as [|b dna IH]; [reflexivity|].
  cbn [count_from starts_with length Nat.sub count_occ].
  rewrite andb_true_r. destruct (ascii_dec b letter) as [->|Hne].
  - rewrite Ascii.eqb_refl, IH. lia.
  - replace (Ascii.eqb letter b) with false
      by (symmetry; apply Ascii.eqb_neq; congruence).
    exact IH.
Qed.

Lemma dict_get_comprehension {V : Type} (f : ascii -> V) (keys : list ascii)
      (key : ascii) :
  dict_get (map (fun k => (k, f k)) keys) key
  = if in_dec ascii_dec key keys then Some (f key) else None.
Proof.
  induction keys as [|k keys IH]; [reflexivity|].
  cbn [map dict_get]. destruct (Ascii.eqb k key) eqn:E.
  - apply Ascii.eqb_eq in E. subst k.
    destruct (in_dec ascii_dec key (key :: keys)) as [_|Hn]; [reflexivity|].
    exfalso. apply Hn. now left.
  - apply Ascii.eqb_neq in E. rewrite IH.
    destruct (in_dec ascii_dec key keys) as [Hin|Hn];
      destruct (in_dec ascii_dec key (k :: keys)) as [Hin'|Hn'];
      try reflexivity.
    + exfalso. apply Hn'. now right.
    + destruct Hin' as [->|Hin']; [congruence|contradiction].
Qed.

Lemma sum_add {A : Type} (f g : A -> Z) (l : list A) :
  fold_right Z.add 0 (map (fun a => f a + g a) l)
  = fold_right Z.add 0 (map f l) + fold_right Z.add 0 (map g l).
Proof. induction l as [|a l IH]; cbn [map fold_right]; lia. Qed.

Lemma sum_indicator (keys : list ascii) (a : ascii) :
  NoDup keys ->
  fold_right Z.add 0 (map (fun c => if ascii_dec a c then 1 else 0) keys)
  = if in_dec ascii_dec a keys then 1 else 0.
Proof.
  induction 1 as [|k keys Hk Hnd IH]; [reflexivity|].
  cbn [map fold_right]. rewrite IH.
  destruct (ascii_dec a k) as [->|Hne].
  - destruct (in_dec ascii_dec k keys); [contradiction|].
    destruct (in_dec ascii_dec k (k :: keys)) as [_|Hn]; [reflexivity|].
    exfalso. apply Hn. now left.
  - destruct (in_dec ascii_dec a keys) as [Hin|Hn];
      destruct (in_dec ascii_dec a (k :: keys)) as [Hin'|Hn'];
      try reflexivity.
    + exfalso. apply Hn'. now right.
    + destruct Hin' as [->|Hin']; [congruence|contradiction].
Qed.

Lemma sum_counts (keys : list ascii) (dna : Sequence) :
  NoDup keys -> incl dna keys ->
  fold_right Z.add 0
             (map (fun c => Z.of_nat (count_occ ascii_dec dna c)) keys)
  = Py.len dna.
Proof.
  intros Hnd. induction dna as [|a dna IH]; intros Hincl.
  - cbn [count_occ]. induction keys as [|k keys IHk]; [reflexivity|].
    cbn [map fold_right]. inversion Hnd; subst. rewrite IHk; auto.
    intros x [].
  - rewrite (map_ext _ (fun c => (if ascii_dec a c then 1 else 0)
                                 + Z.of_nat (count_occ ascii_dec dna c))).
    + assert (Hincl' : incl dna keys) by (intros x Hx; apply Hincl; now right).
      rewrite sum_add, sum_indicator, IH by assumption.
      destruct (in_dec ascii_dec a keys) as [_|Hn].
      * unfold Py.len. cbn [length]. lia.
      * exfalso. apply Hn, Hincl. now left.
    + intros c. cbn [count_occ]. destruct (ascii_dec a c); lia.
Qed.

(** X14: [count_all_letters] has one item for each letter that occurs in the
    sequence and none for the others; the value of a letter is the number
    of its occurrences, and the values add up to the length of the
    sequence. *)
Theorem count_all_letters_counts (dna : Sequence) :
  (forall letter,
     dict_get (count_all_letters dna) letter
     = if in_dec ascii_dec letter dna
       then Some (Z.of_nat (count_occ ascii_dec dna letter)) else None) /\
  NoDup (map fst (count_all_letters dna)) /\
  fold_right Z.add 0 (map snd (count_all_letters dna)) = Py.len dna.
Proof.
  unfold count_all_letters, count_base. split; [|split].
  - intros letter.
    rewrite (dict_get_comprehension (fun l => str_count dna [l])).
    rewrite str_count_letter.
    destruct (in_dec ascii_dec letter (nodup ascii_dec dna)) as [Hin|Hn];
      destruct (in_dec ascii_dec letter dna) as [Hin'|Hn']; try reflexivity.
    + apply nodup_In in Hin. contradiction.
    + exfalso. apply Hn. now apply nodup_In.
  - rewrite map_map. cbn [fst]. rewrite map_id. apply NoDup_nodup.
  - rewrite map_map. cbn [snd].
    rewrite (map_ext _ (fun c => Z.of_nat (count_occ ascii_dec dna c)))
      by (intros c; apply str_count_letter).
    apply sum_counts; [apply NoDup_nodup|].
    intros x Hx. now apply nodup_In.
Qed.

Lemma count_two_letters (dna : Sequence) (x y : ascii) :
  x <> y ->
  (count_occ ascii_dec dna x + count_occ ascii_dec dna y <= length dna)%nat /\
  ((count_occ ascii_dec dna x + count_occ ascii_dec dna y = length dna)%nat <->
   Forall (fun c => c = x \/ c = y) dna).
Proof.
  intros Hxy. induction dna as [|c dna [IHle IHeq]].
  - split; [reflexivity|]. split; [constructor|reflexivity].
  - cbn [count_occ length].
    destruct (ascii_dec c x) as [Hx|Hx]; destruct (ascii_dec c y) as [Hy|Hy];
      try congruence.
    + split; [lia|]. split.
      * intros H. constructor; [now left|]. apply IHeq. lia.
      * intros H. inversion H as [|? ? _ Hrest]; subst. apply IHeq in Hrest. lia.
    + split; [lia|]. split.
      * intros H. constructor; [now right|]. apply IHeq. lia.
      * intros H. inversion H as [|? ? _ Hrest]; subst. apply IHeq in Hrest. lia.
    + split; [lia|]. split; [lia|].
      intros H. inversion H; subst. tauto.
Qed.

(** X15: Whatever the floating-point operations are, [gc] raises
    [ZeroDivisionError] exactly for the sequences made of [N] and [n] only,
    the empty sequence among them. *)
Theorem gc_zero_division {float : Type} (float_of_int : Z -> float)
        (float_mul float_div : float -> float -> float) (dna : Sequence) :
  gc float_of_int float_mul float_div dna = Raises ZeroDivisionError <->
  Forall (fun c => c = "N" \/ c = "n")%char dna.
Proof.
  unfold gc. rewrite !str_count_letter.
  destruct (count_two_letters dna "N"%char "n"%char) as [Hle Heq];
    [discriminate|].
  rewrite <- Heq. unfold Py.len.
  destruct (Z.eqb_spec
              (Z.of_nat (length dna)
               - (Z.of_nat (count_occ ascii_dec dna "N"%char)
                  + Z.of_nat (count_occ ascii_dec dna "n"%char))) 0)
    as [H0|Hn0].
  - split; [lia|reflexivity].
  - split; [discriminate|lia].
Qed.

(** ** Whitespace *)

Lemma join_empty (items : list Sequence) : join [] items = concat items.
Proof.
  induction items as [|x [|y items] IH]; cbn [join concat] in *.
  - reflexivity.
  - now rewrite app_nil_r.
  - now rewrite IH.
Qed.

Lemma split_loop_concat (seq word : Sequence) :
  concat (split_loop seq word)
  = word ++ filter (fun c => negb (isspace c)) seq.
Proof.
  revert word. induction seq as [|c seq IH]; intros word; cbn [split_loop filter].
  - destruct word; cbn [concat]; now rewrite ?app_nil_r.
  - destruct (isspace c); cbn [negb].
    + destruct word; cbn [concat]; rewrite IH; reflexivity.
    + rewrite IH, <- app_assoc. reflexivity.
Qed.

(** X16: [rmv_new_lines_spaces] keeps exactly the characters that are not
    whitespace, in their order; so its result holds no whitespace, and
    applying it again changes nothing. *)
Theorem rmv_new_lines_spaces_filter (seq : Sequence) :
  rmv_new_lines_spaces seq = filter (fun c => negb (isspace c)) seq /\
  Forall (fun c => isspace c = false) (rmv_new_lines_spaces seq) /\
  rmv_new_lines_spaces (rmv_new_lines_spaces seq) = rmv_new_lines_spaces seq.
Proof.
  assert (H : forall s, rmv_new_lines_spaces s
                        = filter (fun c => negb (isspace c)) s).
  { intros s. unfold rmv_new_lines_spaces, str_split.
    now rewrite join_empty, split_loop_concat. }
  split; [apply H|]. split.
  - rewrite H. apply Forall_forall. intros c Hc. apply filter_In in Hc.
    now apply negb_true_iff.
  - rewrite !H. apply forallb_filter_id. apply forallb_forall.
    intros c Hc. apply filter_In in Hc. tauto.
Qed.

(** ** Ranges with a step *)

Lemma range_items_in (lo hi step i : Z) :
  0 < step ->
  In i (range_items lo hi step) <->
  lo <= i < hi /\ (i - lo) mod step = 0.
Proof.
  intros Hstep. unfold range_items.
  replace (0 <? step) with true by (symmetry; now apply Z.ltb_lt).
  set (q := (hi - lo + step - 1) / step).
  assert (Hq1 : step * q <= hi - lo + step - 1) by (apply Z.mul_div_le; lia).
  assert (Hq2 : hi - lo + step - 1 < step * Z.succ q)
    by (apply Z.mul_succ_div_gt; lia).
  rewrite in_map_iff. split.
  - intros (k & <- & Hk). apply in_seq in Hk.
    replace (lo + Z.of_nat k * step - lo) with (Z.of_nat k * step) by lia.
    rewrite Z.mod_mul by lia. split; [|reflexivity]. nia.
  - intros [Hr Hmod]. apply Z.mod_divide in Hmod; [|lia].
    destruct Hmod as [k Hk]. exists (Z.to_nat k).
    assert (0 <= k) by nia. split; [lia|]. apply in_seq. nia.
Qed.

Lemma range_items_sorted (lo hi step : Z) :
  0 < step -> StronglySorted Z.lt (range_items lo hi step).
Proof.
  intros Hstep. unfold range_items.
  replace (0 <? step) with true by (symmetry; now apply Z.ltb_lt).
  generalize (Z.to_nat ((hi - lo + step - 1) / step)). intros m.
  generalize 0%nat. induction m as [|m IH]; intros a; cbn [seq map].
  - constructor.
  - constructor; [apply IH|]. apply Forall_forall. intros x Hx.
    apply in_map_iff in Hx. destruct Hx as (k & <- & Hk).
    apply in_seq in Hk. nia.
Qed.

Lemma range_items_backwards (lo hi step : Z) :
  step < 0 -> lo <= hi -> range_items lo hi step = [].
Proof.
  intros Hstep Hle. unfold range_items.
  replace (0 <? step) with false by (symmetry; apply Z.ltb_ge; lia).
  assert ((lo - hi - step - 1) / - step < 1)
    by (apply Z.div_lt_upper_bound; lia).
  replace (Z.to_nat ((lo - hi - step - 1) / - step)) with 0%nat by lia.
  reflexivity.
Qed.

(** ** Lines and words *)

Lemma firstn_plus {A : Type} (a b : nat) (l : list A) :
  firstn (a + b) l = firstn a l ++ firstn b (skipn a l).
Proof.
  revert l. induction a as [|a IH]; intros l; [reflexivity|].
  destruct l as [|x l]; cbn [Nat.add firstn skipn app].
  - now rewrite firstn_nil.
  - now rewrite IH.
Qed.

Lemma pieces_concat {A : Type} (n m : nat) (l : list A) :
  concat (map (fun k => firstn n (skipn (k * n) l)) (seq 0 m))
  = firstn (m * n) l.
Proof.
  induction m as [|m IH]; [reflexivity|].
  rewrite seq_S, map_app, concat_app, IH. cbn [map concat Nat.add].
  rewrite app_nil_r. replace (S m * n)%nat with (m * n + n)%nat by lia.
  symmetry. apply firstn_plus.
Qed.

Lemma chunks_value (seq : Sequence) (n : Z) :
  0 < n ->
  chunks seq n
  = Value (map (fun k => firstn (Z.to_nat n) (skipn (k * Z.to_nat n) seq))
               (List.seq 0 (Z.to_nat ((Py.len seq + n - 1) / n)))).
Proof.
  intros Hn. unfold chunks, range_step, range_items.
  replace (n =? 0) with false by (symmetry; apply Z.eqb_neq; lia).
  replace (0 <? n) with true by (symmetry; now apply Z.ltb_lt).
  f_equal. rewrite map_map. rewrite Z.sub_0_r.
  apply map_ext. intros k.
  rewrite slice_between by nia. f_equal; [nia|]. f_equal. nia.
Qed.

Lemma chunk_count (len n : Z) :
  0 <= len -> 0 < n ->
  let q := (len + n - 1) / n in
  0 <= q /\ len <= q * n /\
  forall k, (k < Z.to_nat q)%nat -> Z.of_nat k * n < len.
Proof.
  intros Hlen Hn q.
  assert (Hq1 : n * q <= len + n - 1) by (apply Z.mul_div_le; lia).
  assert (Hq2 : len + n - 1 < n * Z.succ q) by (apply Z.mul_succ_div_gt; lia).
  split; [nia|]. split; [nia|].
  intros k Hk. assert (Z.of_nat k <= q - 1) by lia.
  assert (Z.of_nat k * n <= (q - 1) * n)
    by (apply Z.mul_le_mono_nonneg_r; lia).
  lia.
Qed.

Lemma chunks_positive (seq : Sequence) (n : Z) :
  0 < n ->
  exists lines,
    chunks seq n = Value lines /\
    concat lines = seq /\
    Py.len lines = (Py.len seq + n - 1) / n /\
    Forall (fun line => 1 <= Py.len line <= n) lines /\
    forall k, (S k < length lines)%nat -> Py.len (nth k lines []) = n.
Proof.
  intros Hn. rewrite chunks_value by exact Hn.
  pose proof (len_nonneg seq) as Hlen.
  destruct (chunk_count (Py.len seq) n Hlen Hn) as (Hq0 & Hq1 & Hq2).
  set (q := (Py.len seq + n - 1) / n) in *.
  assert (Hpiece : forall k, (k < Z.to_nat q)%nat ->
            Py.len (firstn (Z.to_nat n) (skipn (k * Z.to_nat n) seq))
            = Z.min n (Py.len seq - Z.of_nat k * n)).
  { intros k Hk. specialize (Hq2 k Hk). unfold Py.len in *.
    rewrite length_firstn, length_skipn. nia. }
  eexists. split; [reflexivity|]. split; [|split; [|split]].
  - rewrite pieces_concat. apply firstn_all2. unfold Py.len in *. nia.
  - unfold Py.len. rewrite length_map, length_seq. lia.
  - apply Forall_forall. intros line Hline. apply in_map_iff in Hline.
    destruct Hline as (k & <- & Hk). apply in_seq in Hk.
    rewrite Hpiece by lia. specialize (Hq2 k). lia.
  - intros k Hk. rewrite length_map, length_seq in Hk.
    rewrite (nth_indep _ [] (firstn (Z.to_nat n)
                                    (skipn (0 * Z.to_nat n) seq)))
      by (rewrite length_map, length_seq; lia).
    rewrite (map_nth (fun k => firstn (Z.to_nat n)
                                      (skipn (k * Z.to_nat n) seq))).
    rewrite seq_nth by lia. cbn [Nat.add]. rewrite Hpiece by lia.
    specialize (Hq2 (S k)). lia.
Qed.

(** X17: [split_to_lines_of_length_n] with a positive [n] cuts the sequence
    into [ceil(len(seq) / n)] lines that give the sequence back when put
    end to end; every line has between 1 and [n] characters and every line
    but the last has [n]. With [n = 0] it raises the exception of
    [range], and with a negative [n] it returns no line at all. *)
Theorem split_to_lines_of_length_n_lines (seq : Sequence) (n : Z) :
  (n = 0 -> split_to_lines_of_length_n seq n = Raises StepError) /\
  (n < 0 -> split_to_lines_of_length_n seq n = Value []) /\
  (0 < n ->
   exists lines,
     split_to_lines_of_length_n seq n = Value lines /\
     concat lines = seq /\
     Py.len lines = (Py.len seq + n - 1) / n /\
     Forall (fun line => 1 <= Py.len line <= n) lines /\
     forall k, (S k < length lines)%nat -> Py.len (nth k lines []) = n).
Proof.
  unfold split_to_lines_of_length_n. split; [|split].
  - intros ->. reflexivity.
  - intros Hn. unfold chunks, range_step.
    replace (n =? 0) with false by (symmetry; apply Z.eqb_neq; lia).
    rewrite range_items_backwards by (pose proof (len_nonneg seq); lia).
    reflexivity.
  - apply chunks_positive.
Qed.

Lemma split_to_lines_of_length_n_lines_witness :
  exists lines,
    split_to_lines_of_length_n (dna "ATCGTAC") 3 = Value lines /\
    concat lines = dna "ATCGTAC" /\
    Py.len lines = (Py.len (dna "ATCGTAC") + 3 - 1) / 3 /\
    Forall (fun line => 1 <= Py.len line <= 3) lines /\
    forall k, (S k < length lines)%nat -> Py.len (nth k lines []) = 3.
Proof.
  apply (proj2 (proj2 (split_to_lines_of_length_n_lines (dna "ATCGTAC") 3))).
  reflexivity.
Defined.

Lemma filter_join (f : ascii -> bool) (sep : Sequence) (items : list Sequence) :
  filter f sep = [] -> filter f (join sep items) = filter f (concat items).
Proof.
  intros Hsep. induction items as [|x [|y items] IH]; cbn [join concat] in *.
  - reflexivity.
  - now rewrite app_nil_r.
  - rewrite !filter_app, Hsep, IH, filter_app. reflexivity.
Qed.

Lemma join_length (sep : Sequence) (items : list Sequence) :
  Py.len (join sep items)
  = Py.len (concat items) + Py.len sep * Z.max 0 (Py.len items - 1).
Proof.
  induction items as [|x [|y items] IH]; cbn [join concat] in *.
  - unfold Py.len. cbn [length]. lia.
  - rewrite app_nil_r. unfold Py.len. cbn [length]. lia.
  - rewrite !len_app, IH, len_app. unfold Py.len. cbn [length]. nia.
Qed.

(** X18: [split_by_n_letters] with a positive word size only adds single
    spaces, one between two words of [word_size] characters: removing the
    whitespace of its result gives what removing the whitespace of the
    sequence gives, which is the sequence itself when it holds no
    whitespace. *)
Theorem split_by_n_letters_round_trip (seq : Sequence) (word_size : Z) :
  0 < word_size ->
  exists text,
    split_by_n_letters seq word_size = Value text /\
    rmv_new_lines_spaces text = rmv_new_lines_spaces seq /\
    (Forall (fun c => isspace c = false) seq ->
     rmv_new_lines_spaces text = seq) /\
    Py.len text
    = Py.len seq + Z.max 0 ((Py.len seq + word_size - 1) / word_size - 1).
Proof.
  intros Hn.
  destruct (chunks_positive seq word_size Hn)
    as (words & Hwords & Hconcat & Hcount & _).
  unfold split_by_n_letters. rewrite Hwords. eexists. split; [reflexivity|].
  assert (Hrmv : forall s, rmv_new_lines_spaces s
                           = filter (fun c => negb (isspace c)) s).
  { intros s. unfold rmv_new_lines_spaces, str_split.
    now rewrite join_empty, split_loop_concat. }
  assert (Hsame : rmv_new_lines_spaces (join (dna " ") words)
                  = rmv_new_lines_spaces seq).
  { rewrite !Hrmv, filter_join by reflexivity. now rewrite Hconcat. }
  split; [exact Hsame|]. split.
  - intros Hclean. rewrite Hsame, Hrmv. apply forallb_filter_id.
    apply forallb_forall. intros c Hc. rewrite Forall_forall in Hclean.
    now rewrite (Hclean c Hc).
  - rewrite join_length, Hconcat, Hcount.
    change (Py.len (dna " ")) with 1. lia.
Qed.

Lemma split_by_n_letters_round_trip_witness :
  exists text,
    split_by_n_letters (dna "ATCGTACGGATTA") 10 = Value text /\
    rmv_new_lines_spaces text = rmv_new_lines_spaces (dna "ATCGTACGGATTA") /\
    (Forall (fun c => isspace c = false) (dna "ATCGTACGGATTA") ->
     rmv_new_lines_spaces text = dna "ATCGTACGGATTA") /\
    Py.len text
    = Py.len (dna "ATCGTACGGATTA")
      + Z.max 0 ((Py.len (dna "ATCGTACGGATTA") + 10 - 1) / 10 - 1).
Proof.
  apply (split_by_n_letters_round_trip (dna "ATCGTACGGATTA") 10). reflexivity.
Defined.

(** ** Stop codons *)

Lemma has_stop_loop_exists (dna : Sequence) (positions : list Z) :
  has_stop_loop dna positions false
  = existsb (fun i => is_stop (codon_at dna i)) positions.
Proof.
  induction positions as [|i rest IH]; cbn [has_stop_loop existsb]; [reflexivity|].
  destruct (is_stop (codon_at dna i)); [reflexivity|exact IH].
Qed.

Lemma find_stop_loop_filter (dna : Sequence) (positions found : list Z) :
  find_stop_loop dna positions found
  = found ++ filter (fun i => is_stop (codon_at dna i)) positions.
Proof.
  revert found. induction positions as [|i rest IH]; intros found;
    cbn [find_stop_loop filter].
  - now rewrite app_nil_r.
  - rewrite IH. destruct (is_stop (codon_at dna i)); [|reflexivity].
    now rewrite <- app_assoc.
Qed.

Lemma is_stop_in (codon : Sequence) :
  is_stop codon = true <-> In codon stop_codons.
Proof.
  unfold is_stop. rewrite existsb_exists. split.
  - intros (stop & Hin & Heq). apply seq_eqb_eq in Heq. now subst.
  - intros Hin. exists codon. split; [exact Hin|]. now apply seq_eqb_eq.
Qed.

(** X19: [has_stop_codon] answers [True] exactly when [find_stop_codons] finds
    an index, in every frame. *)
Theorem has_stop_codon_iff_found (dna : Sequence) (frame : Z) :
  has_stop_codon dna frame = true <-> find_stop_codons dna frame <> [].
Proof.
  unfold has_stop_codon, find_stop_codons.
  rewrite has_stop_loop_exists, find_stop_loop_filter. cbn [app].
  rewrite existsb_exists. split.
  - intros (i & Hin & Hi) Hnil.
    assert (H : In i (filter (fun i => is_stop (codon_at dna i))
                             (range_items frame (Py.len dna) 3)))
      by (apply filter_In; auto).
    rewrite Hnil in H. destruct H.
  - intros Hne.
    destruct (filter _ (range_items frame (Py.len dna) 3)) as [|i found] eqn:E;
      [congruence|].
    assert (H : In i (i :: found)) by now left.
    rewrite <- E in H. apply filter_In in H. exists i. exact H.
Qed.

Lemma filter_sorted (f : Z -> bool) (l : list Z) :
  StronglySorted Z.lt l -> StronglySorted Z.lt (filter f l).
Proof.
  induction 1 as [|a l Hs IH Ha]; cbn [filter]; [constructor|].
  destruct (f a); [|exact IH]. constructor; [exact IH|].
  rewrite Forall_forall in *. intros x Hx. apply filter_In in Hx.
  apply Ha. tauto.
Qed.

(** X20: In a frame that is not negative, [find_stop_codons] returns, in
    increasing order, exactly the indexes [i] from [frame] on, a multiple
    of 3 away from it, at which the next three characters of the sequence
    are, in lower case, [tga], [tag] or [taa]. *)
Theorem find_stop_codons_indexes (dna : Sequence) (frame : Z) :
  0 <= frame ->
  StronglySorted Z.lt (find_stop_codons dna frame) /\
  forall i,
    In i (find_stop_codons dna frame) <->
    frame <= i /\ (i - frame) mod 3 = 0 /\
    In (map lower (firstn 3 (skipn (Z.to_nat i) dna))) stop_codons.
Proof.
  intros Hframe. unfold find_stop_codons. rewrite find_stop_loop_filter.
  cbn [app]. split.
  - apply filter_sorted, range_items_sorted. lia.
  - intros i. rewrite filter_In, range_items_in, is_stop_in by lia.
    assert (Hcodon : 0 <= i ->
              codon_at dna i = map lower (firstn 3 (skipn (Z.to_nat i) dna))).
    { intros Hi. unfold codon_at. rewrite slice_between by lia.
      do 2 f_equal. lia. }
    split.
    + intros [[Hr Hmod] Hstop]. rewrite Hcodon in Hstop by lia.
      split; [lia|]. split; [exact Hmod|exact Hstop].
    + intros (Hi & Hmod & Hstop). rewrite Hcodon by lia.
      split; [|exact Hstop]. split; [|exact Hmod]. split; [exact Hi|].
      destruct (Z_lt_ge_dec i (Py.len dna)) as [Hlt|Hge]; [exact Hlt|].
      exfalso. rewrite skipn_all2 in Hstop by (unfold Py.len in Hge; lia).
      cbn in Hstop. intuition discriminate.
Qed.

Lemma find_stop_codons_indexes_witness :
  StronglySorted Z.lt (find_stop_codons (dna "ATGTAACTGAtag") 1) /\
  forall i,
    In i (find_stop_codons (dna "ATGTAACTGAtag") 1) <->
    1 <= i /\ (i - 1) mod 3 = 0 /\
    In (map lower (firstn 3 (skipn (Z.to_nat i) (dna "ATGTAACTGAtag"))))
       stop_codons.
Proof.
  apply (find_stop_codons_indexes (dna "ATGTAACTGAtag") 1). discriminate.
Defined.

(** ** Reading frames *)

Lemma codon_at_shift (dna : Sequence) (k j : Z) :
  0 <= k -> 0 <= j ->
  codon_at (Py.slice dna (Some k) None) j = codon_at dna (k + j).
Proof.
  intros Hk Hj. unfold codon_at.
  rewrite slice_from, !slice_between by lia.
  rewrite skipn_skipn. do 2 f_equal; [lia|]. f_equal. lia.
Qed.

Lemma range_items_shift (dna : Sequence) (k : Z) :
  0 <= k ->
  range_items k (Py.len dna) 3
  = map (Z.add k) (range_items 0 (Py.len (Py.slice dna (Some k) None)) 3).
Proof.
  intros Hk. rewrite slice_from by lia. unfold range_items.
  change (0 <? 3) with true. cbv iota. rewrite map_map.
  assert (Hcount : Z.to_nat ((Py.len dna - k + 3 - 1) / 3)
                   = Z.to_nat ((Py.len (skipn (Z.to_nat k) dna) - 0 + 3 - 1) / 3)).
  { unfold Py.len. rewrite length_skipn.
    destruct (Z_le_gt_dec k (Z.of_nat (length dna))) as [Hle|Hgt].
    - do 2 f_equal. lia.
    - replace (Z.of_nat (length dna - Z.to_nat k)) with 0 by lia.
      assert ((Z.of_nat (length dna) - k + 3 - 1) / 3 < 1)
        by (apply Z.div_lt_upper_bound; lia).
      change ((0 - 0 + 3 - 1) / 3) with 0. lia. }
  rewrite Hcount. apply map_ext. intros i. lia.
Qed.

Lemma frame_scan (dna : Sequence) (k : Z) :
  0 <= k ->
  has_stop_codon dna k = has_stop_codon (Py.slice dna (Some k) None) 0 /\
  find_stop_codons dna k
  = map (Z.add k) (find_stop_codons (Py.slice dna (Some k) None) 0).
Proof.
  intros Hk. unfold has_stop_codon, find_stop_codons.
  rewrite !has_stop_loop_exists, !find_stop_loop_filter. cbn [app].
  rewrite range_items_shift by exact Hk.
  set (frame := Py.slice dna (Some k) None).
  assert (Hitems : forall j, In j (range_items 0 (Py.len frame) 3) -> 0 <= j).
  { intros j Hj. apply range_items_in in Hj; lia. }
  revert Hitems. generalize (range_items 0 (Py.len frame) 3). intros items.
  induction items as [|j items IH]; intros Hitems; [split; reflexivity|].
  cbn [map existsb filter].
  destruct IH as [IH1 IH2]; [intros j' Hj'; apply Hitems; now right|].
  assert (Hj : 0 <= j) by (apply Hitems; now left).
  unfold frame in *. rewrite codon_at_shift by assumption.
  rewrite IH1, IH2. split; [reflexivity|].
  destruct (is_stop (codon_at dna (k + j))); reflexivity.
Qed.

(** X21: Looking for stop codons in frame [k] of a sequence is looking for them
    in frame 0 of the sequence without its first [k] characters: the answer
    of [has_stop_codon] is the same and the indexes of [find_stop_codons]
    are [k] apart. *)
Theorem stop_codons_by_frame (dna : Sequence) (k : Z) :
  0 <= k ->
  has_stop_codon dna k = has_stop_codon (Py.slice dna (Some k) None) 0 /\
  find_stop_codons dna k
  = map (Z.add k) (find_stop_codons (Py.slice dna (Some k) None) 0).
Proof. apply frame_scan. Qed.

Lemma stop_codons_by_frame_witness :
  has_stop_codon (dna "ATGTAACTGAtag") 1
  = has_stop_codon (Py.slice (dna "ATGTAACTGAtag") (Some 1) None) 0 /\
  find_stop_codons (dna "ATGTAACTGAtag") 1
  = map (Z.add 1)
        (find_stop_codons (Py.slice (dna "ATGTAACTGAtag") (Some 1) None) 0).
Proof. apply (stop_codons_by_frame (dna "ATGTAACTGAtag") 1). discriminate. Defined.

(** X22: [get_all_frames] fails with the [KeyError] of [reverse_complement], or
    returns six items named [f1], [f2], [f3], [r1], [r2], [r3]: the
    sequence and its reverse complement, each without its first 0, 1 and 2
    characters. A stop codon in frame 0 of the [k]-th of the three is a
    stop codon in frame [k] of the sequence, or of its reverse
    complement. *)
Theorem get_all_frames_stop_codons (dna : Sequence) :
  (exists e, reverse_complement dna = Raises e /\ get_all_frames dna = Raises e) \/
  (exists rev_comp frames,
     reverse_complement dna = Value rev_comp /\
     get_all_frames dna = Value frames /\
     map fst frames = ["f1"; "f2"; "f3"; "r1"; "r2"; "r3"]%string /\
     forall k, (k < 3)%nat ->
       Py.len (nth k (map snd frames) [])
       = Z.max 0 (Py.len dna - Z.of_nat k) /\
       Py.len (nth (3 + k) (map snd frames) [])
       = Z.max 0 (Py.len dna - Z.of_nat k) /\
       has_stop_codon (nth k (map snd frames) []) 0
       = has_stop_codon dna (Z.of_nat k) /\
       has_stop_codon (nth (3 + k) (map snd frames) []) 0
       = has_stop_codon rev_comp (Z.of_nat k)).
Proof.
  unfold get_all_frames. change (range_items 0 3 1) with [0; 1; 2].
  destruct (reverse_complement dna) as [rev_comp|e] eqn:E; [right|left; eauto].
  exists rev_comp. eexists. split; [reflexivity|]. split; [reflexivity|].
  split; [reflexivity|].
  assert (Hlen : length rev_comp = length dna).
  { unfold reverse_complement, reverse_string in E.
    apply complement_value_iff, Forall2_length in E.
    rewrite length_rev in E. auto. }
  assert (Hslice : forall (s : Sequence) j, 0 <= j ->
            Py.len (Py.slice s (Some j) None) = Z.max 0 (Py.len s - j)).
  { intros s j Hj. rewrite slice_from by lia. unfold Py.len.
    rewrite length_skipn. lia. }
  intros k Hk.
  assert (Hcases : k = 0%nat \/ k = 1%nat \/ k = 2%nat) by lia.
  destruct Hcases as [-> | [-> | ->]];
    cbn [map snd nth Nat.add combine app];
    [change (Z.of_nat 0) with 0 | change (Z.of_nat 1) with 1
     | change (Z.of_nat 2) with 2];
    (split; [apply Hslice; lia|]);
    (split; [rewrite Hslice by lia; unfold Py.len; rewrite Hlen; reflexivity|]);
    (split; symmetry; apply frame_scan; lia).
Qed.

(** ** FASTA files *)

(** *** Stripping and splitting *)

Lemma lstrip_spaces (w l : Sequence) :
  Forall (fun c => isspace c = true) w -> lstrip (w ++ l) = lstrip l.
Proof.
  induction 1 as [|c w Hc _ IH]; [reflexivity|].
  cbn [app lstrip]. now rewrite Hc.
Qed.

Lemma lstrip_clean (l : Sequence) : clean l -> lstrip l = l.
Proof.
  intros H. destruct H as [|c l Hc _]; [reflexivity|].
  cbn [lstrip]. now rewrite Hc.
Qed.

Lemma lstrip_filter (l : Sequence) :
  filter (fun c => negb (isspace c)) (lstrip l)
  = filter (fun c => negb (isspace c)) l.
Proof.
  induction l as [|c l IH]; [reflexivity|].
  cbn [lstrip]. destruct (isspace c) eqn:E; [|reflexivity].
  cbn [filter]. now rewrite E.
Qed.

Lemma lstrip_last (l : Sequence) (c : ascii) :
  isspace c = false -> exists t, lstrip (l ++ [c]) = t ++ [c].
Proof.
  intros Hc. induction l as [|a l [t IH]]; cbn [app lstrip].
  - rewrite Hc. now exists [].
  - destruct (isspace a); [now exists t|]. now exists (a :: l).
Qed.

Lemma rstrip_clean (l w : Sequence) :
  clean l -> Forall (fun c => isspace c = true) w -> rstrip (l ++ w) = l.
Proof.
  intros Hl Hw. unfold rstrip. rewrite rev_app_distr.
  rewrite lstrip_spaces by now apply Forall_rev.
  rewrite lstrip_clean by now apply Forall_rev.
  apply rev_involutive.
Qed.

Lemma rstrip_head (c : ascii) (l : Sequence) :
  isspace c = false -> exists t, rstrip (c :: l) = c :: t.
Proof.
  intros Hc. unfold rstrip. cbn [rev].
  destruct (lstrip_last (rev l) c Hc) as [t ->].
  exists (rev t). now rewrite rev_app_distr.
Qed.

Lemma rstrip_filter (l : Sequence) :
  filter (fun c => negb (isspace c)) (rstrip l)
  = filter (fun c => negb (isspace c)) l.
Proof.
  unfold rstrip. rewrite filter_rev, lstrip_filter, filter_rev.
  apply rev_involutive.
Qed.

Lemma rmv_filter (s : Sequence) :
  rmv_new_lines_spaces s = filter (fun c => negb (isspace c)) s.
Proof.
  unfold rmv_new_lines_spaces, str_split.
  now rewrite join_empty, split_loop_concat.
Qed.

Lemma filter_clean (s : Sequence) :
  clean s -> filter (fun c => negb (isspace c)) s = s.
Proof.
  intros H. apply forallb_filter_id, forallb_forall. intros c Hc.
  unfold clean in H. rewrite Forall_forall in H. now rewrite (H c Hc).
Qed.

Lemma filter_is_clean (s : Sequence) :
  clean (filter (fun c => negb (isspace c)) s).
Proof.
  apply Forall_forall. intros c Hc. apply filter_In in Hc.
  now apply negb_true_iff.
Qed.

Lemma split_loop_clean (l word : Sequence) :
  clean l ->
  split_loop l word = match word ++ l with [] => [] | _ :: _ => [word ++ l] end.
Proof.
  intros H. revert word. induction H as [|c l Hc _ IH]; intros word.
  - cbn [split_loop]. rewrite app_nil_r. destruct word; reflexivity.
  - cbn [split_loop]. rewrite Hc, IH, <- app_assoc. reflexivity.
Qed.

Lemma split_loop_words (l word : Sequence) :
  clean word -> Forall clean (split_loop l word).
Proof.
  revert word. induction l as [|c l IH]; intros word Hword; cbn [split_loop].
  - destruct word; [constructor|]. constructor; [exact Hword|constructor].
  - destruct (isspace c) eqn:E.
    + destruct word as [|a word].
      * apply IH. constructor.
      * constructor; [exact Hword|]. apply IH. constructor.
    + apply IH. apply Forall_app. split; [exact Hword|].
      constructor; [exact E|constructor].
Qed.

(** *** The lines of a text *)

Lemma read_lines_line (l rest line : Sequence) :
  Forall (fun c => c <> "010"%char /\ c <> "013"%char) l ->
  read_lines (l ++ newline ++ rest) line false
  = (line ++ l ++ newline) :: read_lines rest [] false.
Proof.
  intros H. revert line. induction H as [|c l [H1 H2] _ IH]; intros line.
  - reflexivity.
  - cbn [app read_lines].
    replace (Ascii.eqb c "010") with false
      by (symmetry; now apply Ascii.eqb_neq).
    replace (Ascii.eqb c "013") with false
      by (symmetry; now apply Ascii.eqb_neq).
    rewrite IH, <- app_assoc. reflexivity.
Qed.

Lemma read_lines_lines (lines : list Sequence) :
  Forall (Forall (fun c => c <> "010"%char /\ c <> "013"%char)) lines ->
  read_lines (concat (map (fun l => l ++ newline) lines)) [] false
  = map (fun l => l ++ newline) lines.
Proof.
  induction 1 as [|l lines Hl _ IH]; [reflexivity|].
  cbn [map concat]. rewrite <- app_assoc, read_lines_line by exact Hl.
  now rewrite IH.
Qed.

(** *** Dictionaries of names *)

Lemma names_get_last (d : names) (name value : Sequence) :
  ~ In name (map fst d) -> names_get (d ++ [(name, value)]) name = Some value.
Proof.
  induction d as [|[k v] d IH]; intros Hn; cbn [app names_get].
  - now rewrite (proj2 (seq_eqb_eq name name) eq_refl).
  - replace (seq_eqb k name) with false.
    + apply IH. intros Hin. apply Hn. now right.
    + symmetry. apply seq_eqb_neq. intros ->. apply Hn. now left.
Qed.

Lemma names_set_last (d : names) (name old value : Sequence) :
  ~ In name (map fst d) ->
  names_set (d ++ [(name, old)]) name value = d ++ [(name, value)].
Proof.
  induction d as [|[k v] d IH]; intros Hn; cbn [app names_set].
  - now rewrite (proj2 (seq_eqb_eq name name) eq_refl).
  - replace (seq_eqb k name) with false.
    + rewrite IH; [reflexivity|]. intros Hin. apply Hn. now right.
    + symmetry. apply seq_eqb_neq. intros ->. apply Hn. now left.
Qed.

Lemma names_set_new (d : names) (name value : Sequence) :
  ~ In name (map fst d) -> names_set d name value = d ++ [(name, value)].
Proof.
  induction d as [|[k v] d IH]; intros Hn; cbn [app names_set].
  - reflexivity.
  - replace (seq_eqb k name) with false.
    + rewrite IH; [reflexivity|]. intros Hin. apply Hn. now right.
    + symmetry. apply seq_eqb_neq. intros ->. apply Hn. now left.
Qed.

Lemma names_get_set (d : names) (name value : Sequence) :
  names_get (names_set d name value) name = Some value.
Proof.
  induction d as [|[k v] d IH]; cbn [names_set names_get].
  - now rewrite (proj2 (seq_eqb_eq name name) eq_refl).
  - destruct (seq_eqb k name) eqn:E; cbn [names_get]; rewrite E; auto.
Qed.

(** *** The parser, line by line *)

Lemma parse_lines_cons (line : Sequence) (rest : list Sequence) (seqs : names)
      (name : option Sequence) :
  parse_lines (line :: rest) seqs name =
  if starts_with (dna ">") (rstrip line) then
    match str_split (rstrip line) with
    | [] => Raises IndexError
    | word :: _ =>
        parse_lines rest (names_set seqs (Py.slice word (Some 1) None) [])
                    (Some (Py.slice word (Some 1) None))
    end
  else
    match name with
    | None => Raises UnboundLocalError
    | Some key =>
        match names_get seqs key with
        | None => Raises (NameKeyError key)
        | Some old =>
            parse_lines rest
              (names_set seqs key (old ++ rmv_new_lines_spaces (rstrip line)))
              name
        end
    end.
Proof. reflexivity. Qed.

Lemma starts_with_mark (line : Sequence) :
  starts_with (dna ">") line = true <-> exists l, line = ">"%char :: l.
Proof.
  destruct line as [|c l]; cbn [dna list_ascii_of_string starts_with].
  - split; [discriminate|]. intros [l H]. discriminate.
  - rewrite andb_true_r, Ascii.eqb_eq. split.
    + intros <-. now exists l.
    + now intros [l' [= <- _]].
Qed.

Lemma split_loop_word (l word : Sequence) :
  word <> [] -> exists w ws, split_loop l word = w :: ws.
Proof.
  revert word. induction l as [|c l IH]; intros word Hword; cbn [split_loop].
  - destruct word; [congruence|eauto].
  - destruct (isspace c).
    + destruct word; [congruence|eauto].
    + apply IH. now destruct word.
Qed.

Lemma header_words (line : Sequence) :
  starts_with (dna ">") line = true ->
  exists word words, str_split line = word :: words /\ clean word.
Proof.
  intros H. apply starts_with_mark in H. destruct H as [l ->].
  unfold str_split.
  pose proof (split_loop_words (">"%char :: l) [] (Forall_nil _)) as Hclean.
  change (split_loop (">"%char :: l) []) with (split_loop l [">"%char]) in *.
  destruct (split_loop_word l [">"%char]) as (w & ws & E); [discriminate|].
  rewrite E in *. inversion Hclean; subst. eauto.
Qed.

Lemma parse_header (name : Sequence) (rest : list Sequence) (seqs : names)
      (current : option Sequence) :
  clean name ->
  parse_lines ((header_of name ++ newline) :: rest) seqs current
  = parse_lines rest (names_set seqs name []) (Some name).
Proof.
  intros Hname. rewrite parse_lines_cons.
  assert (Hheader : clean (header_of name)) by (constructor; [reflexivity|exact Hname]).
  rewrite rstrip_clean; [|exact Hheader|repeat constructor].
  replace (starts_with (dna ">") (header_of name)) with true
    by (symmetry; apply starts_with_mark; now exists name).
  unfold str_split. rewrite split_loop_clean by exact Hheader.
  unfold header_of. cbn [app]. now rewrite slice_rest.
Qed.

Lemma parse_sequence_line (text : Sequence) (rest : list Sequence) (seqs : names)
      (key old : Sequence) :
  names_get seqs key = Some old ->
  text = [] \/
  (exists c t, text = c :: t /\ isspace c = false /\ c <> ">"%char) ->
  parse_lines ((text ++ newline) :: rest) seqs (Some key)
  = parse_lines rest
      (names_set seqs key (old ++ filter (fun c => negb (isspace c)) text))
      (Some key).
Proof.
  intros Hget Htext. rewrite parse_lines_cons.
  assert (Hmark : starts_with (dna ">") (rstrip (text ++ newline)) = false).
  { destruct Htext as [->|(c & t & -> & Hc & Hne)]; [reflexivity|].
    destruct (rstrip_head c (t ++ newline) Hc) as [t' Ht'].
    cbn [app]. rewrite Ht'. cbn [dna list_ascii_of_string starts_with].
    rewrite andb_true_r. apply Ascii.eqb_neq. congruence. }
  rewrite Hmark, Hget, rmv_filter, rstrip_filter, filter_app.
  change (filter (fun c => negb (isspace c)) newline) with (@nil ascii).
  now rewrite app_nil_r.
Qed.

Lemma parse_lines_bound (lines : list Sequence) :
  forall (seqs : names) (key : Sequence),
    names_get seqs key <> None ->
    exists seqs', parse_lines lines seqs (Some key) = Value seqs'.
Proof.
  induction lines as [|line lines IH]; intros seqs key Hkey; [cbn; eauto|].
  rewrite parse_lines_cons.
  destruct (starts_with (dna ">") (rstrip line)) eqn:Hmark.
  - destruct (header_words _ Hmark) as (word & words & -> & _).
    apply IH. rewrite names_get_set. discriminate.
  - destruct (names_get seqs key) as [old|] eqn:Hget; [|congruence].
    apply IH. rewrite names_get_set. discriminate.
Qed.

Lemma names_set_keys (d : names) (name value : Sequence) :
  map fst (names_set d name value)
  = if in_dec (list_eq_dec ascii_dec) name (map fst d)
    then map fst d else map fst d ++ [name].
Proof.
  induction d as [|[k v] d IH]; cbn [names_set map fst].
  - reflexivity.
  - destruct (seq_eqb k name) eqn:E; cbn [map fst].
    + apply seq_eqb_eq in E. subst k.
      destruct (in_dec (list_eq_dec ascii_dec) name (name :: map fst d)) as [_|Hn]; [reflexivity|].
      exfalso. apply Hn. now left.
    + apply seq_eqb_neq in E. rewrite IH.
      destruct (in_dec (list_eq_dec ascii_dec) name (map fst d)) as [Hin|Hn];
        destruct (in_dec (list_eq_dec ascii_dec) name (k :: map fst d)) as [Hin'|Hn'];
        try reflexivity.
      * exfalso. apply Hn'. now right.
      * destruct Hin' as [->|Hin']; [congruence|contradiction].
Qed.

Lemma names_set_distinct (d : names) (name value : Sequence) :
  NoDup (map fst d) -> NoDup (map fst (names_set d name value)).
Proof.
  intros H. rewrite names_set_keys.
  destruct (in_dec (list_eq_dec ascii_dec) name (map fst d)) as [Hin|Hn]; [exact H|].
  apply NoDup_app; [exact H|repeat constructor; intros []|].
  intros x Hx [<-|[]]. contradiction.
Qed.

Lemma names_set_clean (d : names) (name value : Sequence) :
  Forall (fun item => clean (fst item) /\ clean (snd item)) d ->
  clean name -> clean value ->
  Forall (fun item => clean (fst item) /\ clean (snd item))
         (names_set d name value).
Proof.
  intros Hd Hname Hvalue. induction Hd as [|[k v] d [Hk Hv] Hd IH];
    cbn [names_set].
  - repeat constructor; assumption.
  - cbn [fst snd] in *. destruct (seq_eqb k name).
    + constructor; [split; assumption|exact Hd].
    + constructor; [split; assumption|exact IH].
Qed.

Lemma names_get_clean (d : names) (name value : Sequence) :
  Forall (fun item => clean (fst item) /\ clean (snd item)) d ->
  names_get d name = Some value -> clean value.
Proof.
  induction 1 as [|[k v] d [Hk Hv] _ IH]; cbn [names_get]; [discriminate|].
  destruct (seq_eqb k name); [now intros [= <-]|exact IH].
Qed.

Lemma names_get_key_clean (d : names) (name value : Sequence) :
  Forall (fun item => clean (fst item) /\ clean (snd item)) d ->
  names_get d name = Some value -> clean name.
Proof.
  induction 1 as [|[k v] d [Hk Hv] _ IH]; cbn [names_get]; [discriminate|].
  destruct (seq_eqb k name) eqn:E; [|exact IH].
  apply seq_eqb_eq in E. subst k. intros _. exact Hk.
Qed.

Lemma parse_lines_invariants (lines : list Sequence) :
  forall (seqs seqs' : names) (name : option Sequence),
    Forall (fun item => clean (fst item) /\ clean (snd item)) seqs ->
    NoDup (map fst seqs) ->
    parse_lines lines seqs name = Value seqs' ->
    Forall (fun item => clean (fst item) /\ clean (snd item)) seqs' /\
    NoDup (map fst seqs').
Proof.
  induction lines as [|line lines IH]; intros seqs seqs' name Hclean Hnd.
  - intros [= <-]. auto.
  - rewrite parse_lines_cons.
    destruct (starts_with (dna ">") (rstrip line)) eqn:Hmark.
    + destruct (header_words _ Hmark) as (word & words & -> & Hword).
      apply IH; [|now apply names_set_distinct].
      apply names_set_clean; [exact Hclean| |constructor].
      destruct word as [|c word]; [constructor|].
      rewrite slice_rest. now inversion Hword.
    + destruct name as [key|]; [|discriminate].
      destruct (names_get seqs key) as [old|] eqn:Hget; [|discriminate].
      apply IH; [|now apply names_set_distinct].
      apply names_set_clean; [exact Hclean| |].
      * exact (names_get_key_clean _ _ _ Hclean Hget).
      * apply Forall_app. split; [exact (names_get_clean _ _ _ Hclean Hget)|].
        rewrite rmv_filter. apply filter_is_clean.
Qed.

(** X23: For a file that opens and reads as text, [fasta_parser] prints
    nothing, and the only exception it raises is [UnboundLocalError],
    exactly when the text has a first line that is not a header; in a
    dictionary it returns, names are distinct and neither names nor
    sequences hold whitespace. The file read is the one named [file], with
    [.fasta] added when the name does not end so. *)
Theorem fasta_parser_outcome (fs : files) (file text : Sequence) :
  fs (if ends_with file (dna ".fasta") then file else file ++ dna ".fasta")
  = Some text ->
  fst (fasta_parser fs file) = [] /\
  (forall e, snd (fasta_parser fs file) = Raises e ->
             e = UnboundLocalError) /\
  (snd (fasta_parser fs file) = Raises UnboundLocalError <->
   exists line rest,
     read_lines text [] false = line :: rest /\
     starts_with (dna ">") (rstrip line) = false) /\
  (forall seqs, snd (fasta_parser fs file) = Value (Some seqs) ->
     NoDup (map fst seqs) /\
     Forall (fun item => clean (fst item) /\ clean (snd item)) seqs).
Proof.
  intros Hfile. unfold fasta_parser. rewrite Hfile.
  cbn [fst snd]. split; [reflexivity|].
  assert (Hfirst :
    (exists seqs, parse_lines (read_lines text [] false) [] None = Value seqs /\
       ~ exists line rest,
           read_lines text [] false = line :: rest /\
           starts_with (dna ">") (rstrip line) = false) \/
    (parse_lines (read_lines text [] false) [] None = Raises UnboundLocalError /\
     exists line rest,
       read_lines text [] false = line :: rest /\
       starts_with (dna ">") (rstrip line) = false)).
  { destruct (read_lines text [] false) as [|line rest].
    - left. exists []. split; [reflexivity|]. intros (l & r & H & _).
      discriminate.
    - rewrite parse_lines_cons.
      destruct (starts_with (dna ">") (rstrip line)) eqn:Hmark.
      + left. destruct (header_words _ Hmark) as (word & words & -> & _).
        destruct (parse_lines_bound rest
                    (names_set [] (Py.slice word (Some 1) None) [])
                    (Py.slice word (Some 1) None)) as [seqs Hseqs].
        { rewrite names_get_set. discriminate. }
        exists seqs. split; [exact Hseqs|].
        intros (l & r & [= <- <-] & H). congruence.
      + right. split; [reflexivity|]. eauto. }
  destruct Hfirst as [(seqs & Hseqs & Hnot)|[Hraise Hex]].
  - rewrite Hseqs. split; [discriminate|]. split.
    + split; [discriminate|]. intros H. contradiction.
    + intros seqs' [= <-].
      destruct (parse_lines_invariants _ _ _ _ (Forall_nil _) (NoDup_nil _) Hseqs).
      auto.
  - rewrite Hraise. split; [now intros e [= <-]|]. split.
    + split; auto.
    + discriminate.
Qed.

(** A file with a sequence line before its first header, and the same
    file with the two lines the other way round. *)
Lemma fasta_parser_outcome_witness :
  (let fs := write_file (fun _ => None) (dna "reads.fasta")
                        (dna "AC GT" ++ newline ++ dna ">r1 x" ++ newline) in
   fst (fasta_parser fs (dna "reads")) = [] /\
   (forall e, snd (fasta_parser fs (dna "reads")) = Raises e ->
              e = UnboundLocalError) /\
   (snd (fasta_parser fs (dna "reads")) = Raises UnboundLocalError <->
    exists line rest,
      read_lines (dna "AC GT" ++ newline ++ dna ">r1 x" ++ newline) [] false
      = line :: rest /\
      starts_with (dna ">") (rstrip line) = false) /\
   (forall seqs, snd (fasta_parser fs (dna "reads")) = Value (Some seqs) ->
      NoDup (map fst seqs) /\
      Forall (fun item => clean (fst item) /\ clean (snd item)) seqs)) /\
  (let fs := write_file (fun _ => None) (dna "reads.fasta")
                        (dna ">r1 x" ++ newline ++ dna "AC GT" ++ newline) in
   fst (fasta_parser fs (dna "reads.fasta")) = [] /\
   (forall e, snd (fasta_parser fs (dna "reads.fasta")) = Raises e ->
              e = UnboundLocalError) /\
   (snd (fasta_parser fs (dna "reads.fasta")) = Raises UnboundLocalError <->
    exists line rest,
      read_lines (dna ">r1 x" ++ newline ++ dna "AC GT" ++ newline) [] false
      = line :: rest /\
      starts_with (dna ">") (rstrip line) = false) /\
   (forall seqs, snd (fasta_parser fs (dna "reads.fasta")) = Value (Some seqs) ->
      NoDup (map fst seqs) /\
      Forall (fun item => clean (fst item) /\ clean (snd item)) seqs)).
Proof.
  split.
  - apply (fasta_parser_outcome
             (write_file (fun _ => None) (dna "reads.fasta")
                         (dna "AC GT" ++ newline ++ dna ">r1 x" ++ newline))
             (dna "reads")
             (dna "AC GT" ++ newline ++ dna ">r1 x" ++ newline)).
    reflexivity.
  - apply (fasta_parser_outcome
             (write_file (fun _ => None) (dna "reads.fasta")
                         (dna ">r1 x" ++ newline ++ dna "AC GT" ++ newline))
             (dna "reads.fasta")
             (dna ">r1 x" ++ newline ++ dna "AC GT" ++ newline)).
    reflexivity.
Defined.

(** The two files of the witness: the first raises, the second gives the
    dictionary of one name. *)
Example fasta_parser_two_files :
  fasta_parser (write_file (fun _ => None) (dna "reads.fasta")
                           (dna "AC GT" ++ newline ++ dna ">r1 x" ++ newline))
               (dna "reads")
  = ([], Raises UnboundLocalError) /\
  fasta_parser (write_file (fun _ => None) (dna "reads.fasta")
                           (dna ">r1 x" ++ newline ++ dna "AC GT" ++ newline))
               (dna "reads.fasta")
  = ([], Value (Some [(dna "r1", dna "ACGT")])).
Proof. split; reflexivity. Qed.

(** *** What [save_fasta] writes *)

Lemma join_forall (P : ascii -> Prop) (sep : Sequence) (items : list Sequence) :
  Forall P sep -> Forall (Forall P) items -> Forall P (join sep items).
Proof.
  intros Hsep. induction 1 as [|x items Hx Hitems IH]; [constructor|].
  destruct items as [|y items]; [exact Hx|].
  change (join sep (x :: y :: items)) with (x ++ sep ++ join sep (y :: items)).
  apply Forall_app. split; [exact Hx|]. apply Forall_app. auto.
Qed.

Lemma words_of_facts (line : Sequence) :
  split_by_n_letters line 10 = Value (words_of line) /\
  filter (fun c => negb (isspace c)) (words_of line)
  = filter (fun c => negb (isspace c)) line /\
  Forall (fun c => c = " "%char \/ In c line) (words_of line) /\
  (forall c l, line = c :: l -> exists t, words_of line = c :: t).
Proof.
  destruct (chunks_positive line 10 eq_refl)
    as (words & Hwords & Hconcat & _ & Hlen & _).
  unfold words_of, split_by_n_letters. rewrite Hwords.
  split; [reflexivity|]. split; [|split].
  - rewrite filter_join by reflexivity. now rewrite Hconcat.
  - apply join_forall; [repeat constructor; now left|].
    apply Forall_forall. intros w Hw. apply Forall_forall. intros c Hc.
    right. rewrite <- Hconcat. apply in_concat. eauto.
  - intros c l Hline. destruct words as [|w words].
    + cbn in Hconcat. congruence.
    + apply Forall_inv in Hlen. rename Hlen into Hw.
      destruct w as [|c' w]; [unfold Py.len in Hw; cbn in Hw; lia|].
      cbn [concat app] in Hconcat. rewrite Hline in Hconcat.
      injection Hconcat as -> _.
      destruct words; cbn [join app]; eauto.
Qed.

Lemma lines_of_facts (seq : Sequence) :
  split_to_lines_of_length_n seq 50 = Value (lines_of seq) /\
  concat (lines_of seq) = seq /\
  Forall (fun line => line <> []) (lines_of seq).
Proof.
  destruct (chunks_positive seq 50 eq_refl)
    as (lines & Hlines & Hconcat & _ & Hlen & _).
  unfold lines_of, split_to_lines_of_length_n. rewrite Hlines.
  split; [reflexivity|]. split; [exact Hconcat|].
  revert Hlen. apply Forall_impl. intros line Hline ->.
  unfold Py.len in Hline. cbn in Hline. lia.
Qed.

Lemma final_seq_loop_value (lines : list Sequence) (final_seq : Sequence) :
  final_seq_loop lines final_seq
  = Value (final_seq
           ++ concat (map (fun l => l ++ newline) (map words_of lines))).
Proof.
  revert final_seq. induction lines as [|line lines IH]; intros final_seq;
    cbn [final_seq_loop map concat].
  - now rewrite app_nil_r.
  - rewrite (proj1 (words_of_facts line)), IH, <- !app_assoc. reflexivity.
Qed.

Lemma save_loop_value (items : list (Sequence * Sequence)) (written : Sequence) :
  save_loop items written
  = Value (written
           ++ concat (map (fun l => l ++ newline)
                          (flat_map (fun item => record_lines (fst item) (snd item))
                                    items))).
Proof.
  revert written. induction items as [|[header seq] items IH]; intros written;
    cbn [save_loop flat_map fst snd].
  - cbn [map concat]. now rewrite app_nil_r.
  - rewrite (proj1 (lines_of_facts seq)), final_seq_loop_value, IH.
    unfold record_lines. cbn [app map concat].
    rewrite !map_app, !concat_app. cbn [map concat app].
    rewrite <- !app_assoc. reflexivity.
Qed.

Lemma clean_line_ends (c : ascii) :
  isspace c = false -> c <> "010"%char /\ c <> "013"%char.
Proof. intros H. split; intros ->; discriminate H. Qed.

Lemma record_lines_ends (name seq : Sequence) :
  clean name -> clean seq ->
  Forall (Forall (fun c => c <> "010"%char /\ c <> "013"%char))
         (record_lines (header_of name) seq).
Proof.
  intros Hname Hseq. unfold record_lines, clean in *.
  rewrite Forall_forall in Hname, Hseq.
  constructor; [|apply Forall_app; split; [|repeat constructor]].
  - constructor; [split; discriminate|].
    apply Forall_forall. intros c Hc. now apply clean_line_ends, Hname.
  - apply Forall_forall. intros text Htext. apply in_map_iff in Htext.
    destruct Htext as (line & <- & Hline).
    destruct (words_of_facts line) as (_ & _ & Hchars & _).
    revert Hchars. apply Forall_impl. intros c [->|Hc]; [split; discriminate|].
    apply clean_line_ends, Hseq.
    rewrite <- (proj1 (proj2 (lines_of_facts seq))). apply in_concat. eauto.
Qed.

(** *** Reading back what was written *)

Lemma parse_sequence_lines (lines : list Sequence) :
  forall (rest : list Sequence) (seqs : names) (name read : Sequence),
    ~ In name (map fst seqs) ->
    Forall (fun line => line <> [] /\ clean line /\ ~ In ">"%char line) lines ->
    parse_lines (map (fun l => l ++ newline) (map words_of lines) ++ rest)
                (seqs ++ [(name, read)]) (Some name)
    = parse_lines rest (seqs ++ [(name, read ++ concat lines)]) (Some name).
Proof.
  induction lines as [|line lines IH]; intros rest seqs name read Hnew Hlines.
  - cbn [map app concat]. now rewrite app_nil_r.
  - inversion Hlines as [|? ? (Hne & Hclean & Hmark) Hlines']; subst.
    cbn [map app concat].
    destruct (words_of_facts line) as (_ & Hfilter & _ & Hhead).
    rewrite (parse_sequence_line _ _ _ name read).
    + rewrite names_set_last by exact Hnew.
      rewrite Hfilter, filter_clean by exact Hclean.
      rewrite IH by assumption. now rewrite <- app_assoc.
    + now apply names_get_last.
    + right. destruct line as [|c line]; [congruence|].
      destruct (Hhead c line eq_refl) as [t Ht]. exists c, t.
      split; [exact Ht|]. split; [now inversion Hclean|].
      intros ->. apply Hmark. now left.
Qed.

Lemma parse_record (name seq : Sequence) (rest : list Sequence) (seqs : names)
      (current : option Sequence) :
  clean name -> clean seq -> ~ In ">"%char seq ->
  ~ In name (map fst seqs) ->
  parse_lines (map (fun l => l ++ newline) (record_lines (header_of name) seq)
               ++ rest) seqs current
  = parse_lines rest (seqs ++ [(name, seq)]) (Some name).
Proof.
  intros Hname Hseq Hmark Hnew. unfold record_lines.
  cbn [map app]. rewrite parse_header by exact Hname.
  rewrite names_set_new by exact Hnew.
  rewrite map_app, <- app_assoc.
  destruct (lines_of_facts seq) as (_ & Hconcat & Hlines).
  rewrite parse_sequence_lines.
  - cbn [map app].
    rewrite (parse_sequence_line [] _ _ name (concat (lines_of seq))).
    + rewrite names_set_last by exact Hnew. cbn [filter app].
      now rewrite app_nil_r, Hconcat.
    + now apply names_get_last.
    + now left.
  - exact Hnew.
  - rewrite Forall_forall in *. intros line Hline.
    assert (Hsub : forall c, In c line -> In c seq).
    { intros c Hc. rewrite <- Hconcat. apply in_concat. eauto. }
    split; [now apply Hlines|]. split.
    + apply Forall_forall. intros c Hc. unfold clean in Hseq.
      rewrite Forall_forall in Hseq. auto.
    + intros Hc. apply Hmark. auto.
Qed.

Lemma parse_records (records : list (Sequence * Sequence)) :
  forall (seqs : names) (current : option Sequence),
    NoDup (map fst seqs ++ map fst records) ->
    Forall (fun r => clean (fst r) /\ clean (snd r) /\ ~ In ">"%char (snd r))
           records ->
    parse_lines
      (map (fun l => l ++ newline)
           (flat_map (fun r => record_lines (header_of (fst r)) (snd r)) records))
      seqs current
    = Value (seqs ++ records).
Proof.
  induction records as [|[name seq] records IH]; intros seqs current Hnd Hall.
  - cbn. now rewrite app_nil_r.
  - inversion Hall as [|? ? (Hname & Hseq & Hmark) Hall']; subst.
    cbn [flat_map fst snd] in *. rewrite map_app, parse_record; auto.
    + rewrite IH; [now rewrite <- app_assoc|
                   now rewrite map_app, <- app_assoc|exact Hall'].
    + apply NoDup_remove_2 in Hnd. intros Hin. apply Hnd.
      apply in_or_app. now left.
Qed.

Lemma saved_items (records : list (Sequence * Sequence)) :
  flat_map (fun item => record_lines (fst item) (snd item))
           (combine (map (fun r => header_of (fst r)) records)
                    (map snd records))
  = flat_map (fun r => record_lines (header_of (fst r)) (snd r)) records.
Proof.
  induction records as [|r records IH]; [reflexivity|].
  cbn [map combine flat_map fst snd]. now rewrite IH.
Qed.

Lemma write_file_same (fs : files) (name text : Sequence) :
  write_file fs name text name = Some text.
Proof.
  unfold write_file. now rewrite (proj2 (seq_eqb_eq name name) eq_refl).
Qed.

(** X24: Reading back with [fasta_parser] what [save_fasta] wrote gives the
    names with their sequences, in their order: for names that are
    distinct and hold no whitespace, written as headers [>name], and
    sequences that hold no whitespace and no [>], under a file name that
    ends in [.fasta] or does not end in [faa]. *)
Theorem save_fasta_then_fasta_parser
        (fs : files) (records : list (Sequence * Sequence))
        (file_name : Sequence) :
  ends_with file_name (dna ".fasta") = true \/
  ends_with file_name (dna "faa") = false ->
  NoDup (map fst records) ->
  Forall (fun r => clean (fst r) /\ clean (snd r) /\ ~ In ">"%char (snd r))
         records ->
  exists fs',
    save_fasta fs (map (fun r => header_of (fst r)) records)
               (map snd records) file_name = Value fs' /\
    fasta_parser fs' file_name = ([], Value (Some records)).
Proof.
  intros Hname Hnd Hall. unfold save_fasta, fasta_parser.
  rewrite save_loop_value, saved_items. cbn [app].
  eexists. split; [reflexivity|].
  assert (Hsame :
    (if ends_with file_name (dna ".fasta") || ends_with file_name (dna "faa")
     then file_name else file_name ++ dna ".fasta")
    = (if ends_with file_name (dna ".fasta")
       then file_name else file_name ++ dna ".fasta")).
  { destruct (ends_with file_name (dna ".fasta")); [reflexivity|].
    destruct Hname as [Hname|Hname]; [discriminate|]. now rewrite Hname. }
  rewrite Hsame, write_file_same, read_lines_lines.
  - rewrite (parse_records records [] None); [reflexivity|exact Hnd|exact Hall].
  - apply Forall_flat_map. revert Hall. apply Forall_impl.
    intros [name seq] (Hn & Hs & _). now apply record_lines_ends.
Qed.

Lemma save_fasta_then_fasta_parser_witness :
  exists fs',
    save_fasta (fun _ => None)
               (map (fun r => header_of (fst r))
                    [(dna "read1", dna "ATCGTACGGATTA"); (dna "read2", dna "ACGT")])
               (map snd
                    [(dna "read1", dna "ATCGTACGGATTA"); (dna "read2", dna "ACGT")])
               (dna "reads") = Value fs' /\
    fasta_parser fs' (dna "reads")
    = ([], Value (Some [(dna "read1", dna "ATCGTACGGATTA");
                        (dna "read2", dna "ACGT")])).
Proof.
  apply (save_fasta_then_fasta_parser (fun _ => None)
           [(dna "read1", dna "ATCGTACGGATTA"); (dna "read2", dna "ACGT")]
           (dna "reads")).
  - right. reflexivity.
  - repeat constructor; simpl; intuition discriminate.
  - repeat constructor; simpl; intuition discriminate.
Defined.

(** X25: A file that [save_fasta] writes under a name ending in [faa] and not
    in [.fasta] keeps that name, but [fasta_parser] looks for the name
    with [.fasta] added: unless that other file exists, the file just
    written is not found. *)
Theorem save_fasta_faa_not_found
        (fs : files) (headers seqs : list Sequence) (file_name : Sequence) :
  ends_with file_name (dna "faa") = true ->
  ends_with file_name (dna ".fasta") = false ->
  fs (file_name ++ dna ".fasta") = None ->
  exists fs',
    save_fasta fs headers seqs file_name = Value fs' /\
    fs' file_name <> None /\
    fasta_parser fs' file_name = ([dna "File not found!!"], Value None).
Proof.
  intros Hfaa Hfasta Hnone. unfold save_fasta, fasta_parser.
  rewrite save_loop_value, Hfaa, Hfasta. cbn [orb app].
  eexists. split; [reflexivity|]. split.
  - rewrite write_file_same. discriminate.
  - unfold write_file.
    replace (seq_eqb (file_name ++ dna ".fasta") file_name) with false.
    + now rewrite Hnone.
    + symmetry. apply seq_eqb_neq. intros H.
      apply (f_equal (@length ascii)) in H. rewrite length_app in H.
      cbn in H. lia.
Qed.

Lemma save_fasta_faa_not_found_witness :
  exists fs',
    save_fasta (fun _ => None) [dna ">read1"] [dna "ACGT"] (dna "reads.faa")
    = Value fs' /\
    fs' (dna "reads.faa") <> None /\
    fasta_parser fs' (dna "reads.faa") = ([dna "File not found!!"], Value None).
Proof.
  apply (save_fasta_faa_not_found (fun _ => None) [dna ">read1"] [dna "ACGT"]
                                  (dna "reads.faa")); reflexivity.
Defined.
